(** * Tensora miner node: canonical hashing, engines, artifact cache, chain client

    A shallow embedding of the parts of the miner node that its
    specification makes claims about:

    - [engine/onnx_runtime.py] and [engine/vllm_runtime.py]: [compute_hash],
      [run_inference], [run_batch];
    - [shared/ipfs_utils.py]: [download_from_ipfs], [upload_to_ipfs],
      [verify_cid];
    - [shared/rpc_client.py]: [send_transaction].

    The Python library functions the code calls ([json.dumps],
    [hashlib.sha256], [str.encode], [float.__repr__]) are modelled as plain
    functions; the network and the chain are modelled as explicit outcomes
    handed to the functions that consult them. *)

From Stdlib Require Import String Ascii.
From Stdlib Require Import ZArith NArith List Bool Lia.
From Stdlib Require Import Strings.Byte.
From Stdlib Require Import Permutation Sorted SpecFloat.
From Stdlib Require Import DecimalString DecimalZ.
Import ListNotations.

Set Implicit Arguments.

(** ** Python values used throughout *)

Module Py.

(** A Python [str] is a sequence of Unicode code points. *)
Definition codepoint := N.
Definition str := list codepoint.

(** A Python [bytes] object. *)
Definition bytes := list byte.

(** String literals of the source, all ASCII. *)
Definition lit (s : string) : str :=
  map N_of_ascii (list_ascii_of_string s).

(** The exceptions that the modelled code can meet. *)
Inductive exn : Type :=
| ValueError
| TypeError
| KeyError
| OverflowError
| UnicodeEncodeError
| ConnectionError
| TimeExhausted
| ContractError
| GenericException.

(** A computation that returns or raises. *)
Inductive result (A : Type) : Type :=
| Ok (a : A)
| Raise (e : exn).
Arguments Ok {A} a.
Arguments Raise {A} e.

Definition bind {A B} (r : result A) (k : A -> result B) : result B :=
  match r with
  | Ok a => k a
  | Raise e => Raise e
  end.

Definition raises {A} (r : result A) : Prop :=
  exists e, r = Raise e.

Definition returns {A} (r : result A) : Prop :=
  exists a, r = Ok a.

(** [try: body except Exception: handler]. *)
Definition try_except {A} (body : result A) (handler : exn -> result A)
  : result A :=
  match body with
  | Ok a => Ok a
  | Raise e => handler e
  end.

(** A loop that calls [f] on each element in turn and stops at the first
    exception. *)
Definition collect {A B} (f : A -> result B) : list A -> result (list B) :=
  fix go (l : list A) : result (list B) :=
    match l with
    | [] => Ok []
    | x :: r => bind (f x) (fun t => bind (go r) (fun ts => Ok (t :: ts)))
    end.

(** [s1 == s2] and [s1 < s2] on [str]: code point by code point. *)
Fixpoint str_eqb (s t : str) : bool :=
  match s, t with
  | [], [] => true
  | c :: s', d :: t' => N.eqb c d && str_eqb s' t'
  | _, _ => false
  end.

Fixpoint str_ltb (s t : str) : bool :=
  match s, t with
  | [], [] => false
  | [], _ :: _ => true
  | _ :: _, [] => false
  | c :: s', d :: t' =>
      if N.ltb c d then true
      else if N.eqb c d then str_ltb s' t'
      else false
  end.

(** [s.startswith(p)] and [s.endswith(p)]. *)
Fixpoint startswith (s p : str) : bool :=
  match p, s with
  | [], _ => true
  | _ :: _, [] => false
  | d :: p', c :: s' => N.eqb c d && startswith s' p'
  end.

Definition endswith (s p : str) : bool :=
  Nat.leb (length p) (length s)
  && str_eqb (skipn (length s - length p) s) p.

(** [str.encode('utf-8')]: a code point in the surrogate range
    U+D800..U+DFFF has no UTF-8 form and makes [encode] raise. *)
Definition byte_of_N (n : N) : byte :=
  match Byte.of_N (n mod 256) with
  | Some b => b
  | None => x00
  end.

Definition utf8_char (c : codepoint) : result bytes :=
  if (c <? 0x80)%N then Ok [byte_of_N c]
  else if (c <? 0x800)%N then
    Ok [byte_of_N (N.lor 0xC0 (N.shiftr c 6));
        byte_of_N (N.lor 0x80 (N.land c 0x3F))]
  else if ((0xD800 <=? c) && (c <=? 0xDFFF))%N then Raise UnicodeEncodeError
  else if (c <? 0x10000)%N then
    Ok [byte_of_N (N.lor 0xE0 (N.shiftr c 12));
        byte_of_N (N.lor 0x80 (N.land (N.shiftr c 6) 0x3F));
        byte_of_N (N.lor 0x80 (N.land c 0x3F))]
  else
    Ok [byte_of_N (N.lor 0xF0 (N.shiftr c 18));
        byte_of_N (N.lor 0x80 (N.land (N.shiftr c 12) 0x3F));
        byte_of_N (N.lor 0x80 (N.land (N.shiftr c 6) 0x3F));
        byte_of_N (N.lor 0x80 (N.land c 0x3F))].

Fixpoint encode_utf8 (s : str) : result bytes :=
  match s with
  | [] => Ok []
  | c :: s' =>
      bind (utf8_char c) (fun b =>
      bind (encode_utf8 s') (fun bs => Ok (b ++ bs)))
  end.

(** [format(x, '0{count}x')] for [0 <= x < 16 ** count]: lowercase
    hexadecimal digits, most significant first. *)
Definition hexchar (d : Z) : codepoint :=
  if (d <? 10)%Z then Z.to_N (48 + d) else Z.to_N (87 + d).

Definition hex_fixed (count : nat) (x : Z) : str :=
  map (fun i => hexchar (Z.land (Z.shiftr x (4 * Z.of_nat i)) 0xf))
      (rev (seq 0 count)).

(** [int.__repr__]: decimal digits, with a leading minus sign. *)
Definition int_repr (n : Z) : str :=
  lit (NilEmpty.string_of_int (Z.to_int n)).

(** [sep.join(parts)]. *)
Fixpoint join (sep : str) (parts : list str) : str :=
  match parts with
  | [] => []
  | [p] => p
  | p :: rest => p ++ sep ++ join sep rest
  end.

End Py.

Import Py.

(** ** [hashlib.sha256] (FIPS 180-4) *)

Module Sha256.

Local Open Scope Z_scope.

Definition w32 (x : Z) : Z := x mod 4294967296.
Definition add32 (x y : Z) : Z := w32 (x + y).
Definition rotr (n x : Z) : Z :=
  Z.lor (Z.shiftr x n) (w32 (Z.shiftl x (32 - n))).
Definition shr (n x : Z) : Z := Z.shiftr x n.
Definition not32 (x : Z) : Z := Z.lxor x 0xffffffff.

Definition Ch (x y z : Z) : Z :=
  Z.lxor (Z.land x y) (Z.land (not32 x) z).
Definition Maj (x y z : Z) : Z :=
  Z.lxor (Z.lxor (Z.land x y) (Z.land x z)) (Z.land y z).
Definition Sigma0 (x : Z) : Z :=
  Z.lxor (Z.lxor (rotr 2 x) (rotr 13 x)) (rotr 22 x).
Definition Sigma1 (x : Z) : Z :=
  Z.lxor (Z.lxor (rotr 6 x) (rotr 11 x)) (rotr 25 x).
Definition sigma0 (x : Z) : Z :=
  Z.lxor (Z.lxor (rotr 7 x) (rotr 18 x)) (shr 3 x).
Definition sigma1 (x : Z) : Z :=
  Z.lxor (Z.lxor (rotr 17 x) (rotr 19 x)) (shr 10 x).

(** The round constants [K_0 .. K_63] of FIPS 180-4, section 4.2.2, in
    decimal. *)
Definition K : list Z :=
  [
    1116352408; 1899447441; 3049323471; 3921009573; 961987163; 1508970993;
    2453635748; 2870763221; 3624381080; 310598401; 607225278; 1426881987;
    1925078388; 2162078206; 2614888103; 3248222580; 3835390401; 4022224774;
    264347078; 604807628; 770255983; 1249150122; 1555081692; 1996064986;
    2554220882; 2821834349; 2952996808; 3210313671; 3336571891; 3584528711;
    113926993; 338241895; 666307205; 773529912; 1294757372; 1396182291;
    1695183700; 1986661051; 2177026350; 2456956037; 2730485921; 2820302411;
    3259730800; 3345764771; 3516065817; 3600352804; 4094571909; 275423344;
    430227734; 506948616; 659060556; 883997877; 958139571; 1322822218;
    1537002063; 1747873779; 1955562222; 2024104815; 2227730452; 2361852424;
    2428436474; 2756734187; 3204031479; 3329325298 ].

(** The eight working words. *)
Record hstate : Type := mkH {
  h_a : Z; h_b : Z; h_c : Z; h_d : Z;
  h_e : Z; h_f : Z; h_g : Z; h_h : Z
}.

Definition H0 : hstate :=
  mkH 0x6a09e667 0xbb67ae85 0x3c6ef372 0xa54ff53a
      0x510e527f 0x9b05688c 0x1f83d9ab 0x5be0cd19.

(** Message padding: a [1] bit, zeros, and the bit length on 64 bits. *)
Definition be_bytes (count : nat) (x : Z) : list Z :=
  map (fun i => Z.land (Z.shiftr x (8 * Z.of_nat i)) 0xff)
      (rev (seq 0 count)).

Definition pad (msg : bytes) : list Z :=
  let n := Z.of_nat (length msg) in
  map (fun b => Z.of_N (Byte.to_N b)) msg
    ++ [0x80]
    ++ repeat 0 (Z.to_nat ((55 - n) mod 64))
    ++ be_bytes 8 (8 * n).

Fixpoint words_of_bytes (l : list Z) : list Z :=
  match l with
  | a :: b :: c :: d :: r =>
      Z.lor (Z.lor (Z.shiftl a 24) (Z.shiftl b 16))
            (Z.lor (Z.shiftl c 8) d)
        :: words_of_bytes r
  | _ => []
  end.

(** The message schedule, held most recent word first. *)
Fixpoint extend (n : nat) (r : list Z) : list Z :=
  match n with
  | O => r
  | S n' =>
      let wt :=
        add32 (add32 (sigma1 (nth 1 r 0)) (nth 6 r 0))
              (add32 (sigma0 (nth 14 r 0)) (nth 15 r 0)) in
      extend n' (wt :: r)
  end.

Definition schedule (block : list Z) : list Z :=
  rev (extend 48 (rev block)).

Definition round (s : hstate) (kw : Z * Z) : hstate :=
  let '(k, w) := kw in
  let t1 :=
    add32 (add32 (add32 (h_h s) (Sigma1 (h_e s)))
                 (add32 (Ch (h_e s) (h_f s) (h_g s)) k)) w in
  let t2 := add32 (Sigma0 (h_a s)) (Maj (h_a s) (h_b s) (h_c s)) in
  mkH (add32 t1 t2) (h_a s) (h_b s) (h_c s)
      (add32 (h_d s) t1) (h_e s) (h_f s) (h_g s).

Definition compress (h : hstate) (block : list Z) : hstate :=
  let s := fold_left round (combine K (schedule block)) h in
  mkH (add32 (h_a h) (h_a s)) (add32 (h_b h) (h_b s))
      (add32 (h_c h) (h_c s)) (add32 (h_d h) (h_d s))
      (add32 (h_e h) (h_e s)) (add32 (h_f h) (h_f s))
      (add32 (h_g h) (h_g s)) (add32 (h_h h) (h_h s)).

Fixpoint blocks (n : nat) (ws : list Z) (h : hstate) : hstate :=
  match n with
  | O => h
  | S n' => blocks n' (skipn 16 ws) (compress h (firstn 16 ws))
  end.

Definition sha256 (msg : bytes) : hstate :=
  let ws := words_of_bytes (pad msg) in
  blocks (length ws / 16) ws H0.

Definition words (h : hstate) : list Z :=
  [h_a h; h_b h; h_c h; h_d h; h_e h; h_f h; h_g h; h_h h].

(** [.hexdigest()]: 64 lowercase hexadecimal characters. *)
Definition hexdigest (h : hstate) : str :=
  flat_map (hex_fixed 8) (words h).

(** [.digest()]: the 32 bytes of the eight words, big endian. *)
Definition digest (h : hstate) : bytes :=
  map (fun z => byte_of_N (Z.to_N z)) (flat_map (be_bytes 4) (words h)).

End Sha256.


(** ** [float.__repr__] on binary64 *)

Module PyFloat.

Local Open Scope Z_scope.

(** A binary64 value is a [spec_float]: [S754_finite s m e] stands for
    [(-1)^s * m * 2^e] with [m < 2^53] and [-1074 <= e]. *)

(** The shortest decimal that reads back as [m * 2^e], as a pair [(c, j)]
    standing for [c * 10^j].  With [u = 2^(e-2)] the value is [4m * u] and
    the values that round to it lie between [(4m-2) * u] (or [(4m-1) * u]
    just above a power of two) and [(4m+2) * u], the ends included when [m]
    is even.  All three are whole multiples of [10^q] for [q = min (e-2) 0];
    the search is for the largest power of ten that has a multiple in that
    interval, and then for the multiple nearest to the value.  The search
    starts eighteen digits below the size of the upper end, where the
    interval is still wider than the power of ten. *)
Section Shortest.

Variables (X L H : Z) (closed : bool).

Definition inside (v : Z) : bool :=
  if closed then (L <=? v) && (v <=? H) else (L <? v) && (v <? H).

Definition below (p : Z) : Z := (X / p) * p.

Definition has_multiple (p : Z) : bool :=
  inside (below p) || inside (below p + p).

Fixpoint grow (fuel : nat) (p j : Z) : Z * Z :=
  match fuel with
  | O => (p, j)
  | S fuel' =>
      if has_multiple (10 * p) then grow fuel' (10 * p) (j + 1) else (p, j)
  end.

Definition nearest (p : Z) : Z :=
  let lo := below p in
  let hi := lo + p in
  if inside lo && inside hi then
    if X - lo <? hi - X then lo
    else if hi - X <? X - lo then hi
    else if Z.even (lo / p) then lo else hi
  else if inside lo then lo
  else hi.

End Shortest.

Definition shortest_digits (m : positive) (e : Z) : Z * Z :=
  let M := Zpos m in
  let boundary := (M =? 2 ^ 52) && (-1074 <? e) in
  let E := e - 2 in
  let scale := if 0 <=? E then 2 ^ E else 5 ^ (- E) in
  let q := if 0 <=? E then 0 else E in
  let X := 4 * M * scale in
  let L := (if boundary then 4 * M - 1 else 4 * M - 2) * scale in
  let H := (4 * M + 2) * scale in
  let closed := Z.even M in
  let j0 := Z.max 0 (Z.log2 H * 30103 / 100000 - 18) in
  let j1 := if has_multiple X L H closed (10 ^ j0) then j0 else 0 in
  let '(p, j) := grow X L H closed 400 (10 ^ j1) j1 in
  (nearest X L H closed p / p, j + q).

Definition zeros (n : Z) : str := repeat 48%N (Z.to_nat n).

(** The exponent of the scientific form: a sign and at least two digits. *)
Definition exp_repr (x : Z) : str :=
  let d := int_repr (Z.abs x) in
  (if x <? 0 then lit "-" else lit "+")
    ++ (if Nat.ltb (length d) 2 then lit "0" else []) ++ d.

(** The layout of [repr]: positional between [1e-4] and [1e16], scientific
    outside, and [.0] after a whole number. *)
Definition format_short (cj : Z * Z) : str :=
  let '(c, j) := cj in
  let digits := int_repr c in
  let n := Z.of_nat (length digits) in
  let decpt := n + j in
  if (decpt <=? -4) || (16 <? decpt) then
    firstn 1 digits
      ++ (if 1 <? n then lit "." ++ skipn 1 digits else [])
      ++ lit "e" ++ exp_repr (decpt - 1)
  else if decpt <=? 0 then
    lit "0." ++ zeros (- decpt) ++ digits
  else if decpt <? n then
    firstn (Z.to_nat decpt) digits ++ lit "." ++ skipn (Z.to_nat decpt) digits
  else
    digits ++ zeros (decpt - n) ++ lit ".0".

Definition sign_repr (s : bool) : str := if s then lit "-" else [].

Definition float_repr (f : spec_float) : str :=
  match f with
  | S754_zero s => sign_repr s ++ lit "0.0"
  | S754_infinity s => sign_repr s ++ lit "inf"
  | S754_nan => lit "nan"
  | S754_finite s m e => sign_repr s ++ format_short (shortest_digits m e)
  end.

(** [float(n)] for a Python [int]: the nearest binary64, and
    [OverflowError] when [n] is too large for one. *)
Definition float_of_int (n : Z) : result spec_float :=
  match binary_normalize 53 1024 n 0 false with
  | S754_infinity _ => Raise OverflowError
  | f => Ok f
  end.

(** [int(x)]: truncation toward zero. *)
Definition int_of_float (f : spec_float) : result Z :=
  match f with
  | S754_zero _ => Ok 0
  | S754_finite s m e =>
      let a := if 0 <=? e then Zpos m * 2 ^ e else Zpos m / 2 ^ (- e) in
      Ok (if s then - a else a)
  | S754_infinity _ => Raise OverflowError
  | S754_nan => Raise ValueError
  end.

(** The binary64 literals of the source. *)
Definition f_1_2 : spec_float := S754_finite false 5404319552844595 (-52).
Definition f_0_0 : spec_float := S754_zero false.

Definition fmul (x y : spec_float) : spec_float := SFmul 53 1024 x y.

End PyFloat.

(** ** [json.dumps] *)

Module Json.

(** The values [json.dumps] serialises.  A [dict] is its list of items in
    insertion order; its keys are strings (the source types its dicts as
    [Dict[str, Any]]) and, in a real [dict], pairwise distinct. *)
Unset Elimination Schemes.
Inductive json : Type :=
| JNull
| JBool (b : bool)
| JInt (n : Z)
| JFloat (f : spec_float)
| JStr (s : str)
| JList (l : list json)
| JDict (d : list (str * json)).
Set Elimination Schemes.

(** [py_encode_basestring_ascii]: the escapes of [ESCAPE_DCT], printable
    ASCII kept, everything else as [\uXXXX], a surrogate pair above the
    basic plane. *)
Definition u_escape (n : N) : str :=
  [92; 117]%N ++ hex_fixed 4 (Z.of_N n).

Definition escape_char (c : codepoint) : str :=
  (if c =? 92 then [92; 92]
   else if c =? 34 then [92; 34]
   else if c =? 8 then [92; 98]
   else if c =? 12 then [92; 102]
   else if c =? 10 then [92; 110]
   else if c =? 13 then [92; 114]
   else if c =? 9 then [92; 116]
   else if (32 <=? c) && (c <=? 126) then [c]
   else if c <? 0x10000 then u_escape c
   else
     let n := c - 0x10000 in
     u_escape (N.lor 0xd800 (N.land (N.shiftr n 10) 0x3ff))
       ++ u_escape (N.lor 0xdc00 (N.land n 0x3ff)))%N.

Definition encode_basestring_ascii (s : str) : str :=
  [34%N] ++ flat_map escape_char s ++ [34%N].

(** [floatstr]: the three non-finite values have their own spelling, and
    are refused when [allow_nan] is false. *)
Definition floatstr (allow_nan : bool) (f : spec_float) : result str :=
  match f with
  | S754_nan =>
      if allow_nan then Ok (lit "NaN") else Raise ValueError
  | S754_infinity false =>
      if allow_nan then Ok (lit "Infinity") else Raise ValueError
  | S754_infinity true =>
      if allow_nan then Ok (lit "-Infinity") else Raise ValueError
  | _ => Ok (PyFloat.float_repr f)
  end.

(** [sorted(dct.items())]: items ordered by key.  The sort is stable and
    looks at the keys alone, which are distinct in a [dict]. *)
Section Sorting.

Variable A : Type.

Fixpoint insert_item (x : str * A) (l : list (str * A)) : list (str * A) :=
  match l with
  | [] => [x]
  | y :: r =>
      if str_ltb (fst y) (fst x) then y :: insert_item x r
      else x :: y :: r
  end.

Definition sort_items (l : list (str * A)) : list (str * A) :=
  fold_right insert_item [] l.

End Sorting.

(** [JSONEncoder(sort_keys, allow_nan, separators).encode], with the other
    options at their defaults ([ensure_ascii=True], [indent=None],
    [skipkeys=False]).  The encoder sorts the items of a dict and then
    encodes each value; here each value is encoded first and the encoded
    items are sorted, which is the same text since the sort reads keys
    only. *)
Section Encoder.

Variables (sort_keys allow_nan : bool) (item_separator key_separator : str).

Definition encode_item (kt : str * str) : str :=
  encode_basestring_ascii (fst kt) ++ key_separator ++ snd kt.

Fixpoint encode (v : json) : result str :=
  match v with
  | JNull => Ok (lit "null")
  | JBool true => Ok (lit "true")
  | JBool false => Ok (lit "false")
  | JInt n => Ok (int_repr n)
  | JFloat f => floatstr allow_nan f
  | JStr s => Ok (encode_basestring_ascii s)
  | JList l =>
      bind (collect encode l) (fun ts =>
      Ok (lit "[" ++ join item_separator ts ++ lit "]"))
  | JDict d =>
      bind (collect (fun kv => bind (encode (snd kv)) (fun t =>
                               Ok (fst kv, t))) d) (fun kts =>
      let items := if sort_keys then sort_items kts else kts in
      Ok (lit "{" ++ join item_separator (map encode_item items)
            ++ lit "}"))
  end.

(** What the loop over the items of a dict does with one item. *)
Definition encode_value_item (kv : str * json) : result (str * str) :=
  bind (encode (snd kv)) (fun t => Ok (fst kv, t)).

End Encoder.

(** [json.dumps(obj, sort_keys=..., separators=(item, key))];
    [allow_nan] is left at its default, [True]. *)
Definition dumps (obj : json) (sort_keys : bool) (separators : str * str)
  : result str :=
  encode sort_keys true (fst separators) (snd separators) obj.

End Json.

Import Json.

(** Python containers the engines use. *)
Module PyData.

Local Open Scope Z_scope.

(** [d[k] = v] on a dict held as its items in insertion order: an existing
    key keeps its place and takes the new value, a new key goes last. *)
Fixpoint dict_set (d : list (str * json)) (k : str) (v : json)
  : list (str * json) :=
  match d with
  | [] => [(k, v)]
  | (k', v') :: r =>
      if str_eqb k' k then (k', v) :: r else (k', v') :: dict_set r k v
  end.

(** [d[k]], raising [KeyError], and [k in d]. *)
Fixpoint dict_get (d : list (str * json)) (k : str) : result json :=
  match d with
  | [] => Raise KeyError
  | (k', v') :: r => if str_eqb k' k then Ok v' else dict_get r k
  end.

Definition dict_has (d : list (str * json)) (k : str) : bool :=
  existsb (fun kv => str_eqb (fst kv) k) d.

(** [range(start, stop, step)] as the list of its values. *)
Definition range (start stop step : Z) : result (list Z) :=
  if step =? 0 then Raise ValueError
  else
    let count :=
      if 0 <? step then (stop - start + step - 1) / step
      else (start - stop - step - 1) / (- step) in
    Ok (map (fun k => start + Z.of_nat k * step) (seq 0 (Z.to_nat count))).

(** [l[i:j]] for [0 <= i]; a [j] past the end stops at the end. *)
Definition slice {A} (l : list A) (i j : Z) : list A :=
  firstn (Z.to_nat j - Z.to_nat i) (skipn (Z.to_nat i) l).

End PyData.

Import PyData.

(** ** The two inference engines *)

(** [engine/onnx_runtime.py] *)
Module ONNXEngine.

(** An [ONNXEngine] instance.  [session_run] stands for
    [InferenceSession.run]: it takes the prepared inputs and returns one
    tensor per output name, each already as the nested list that
    [tensor.tolist()] gives. *)
Record engine : Type := {
  model_path : str;
  input_names : list str;
  output_names : list str;
  session_run : list (str * json) -> result (list json)
}.

(** [ONNXEngine.compute_hash] *)
Definition compute_hash (output_dict : json) : result str :=
  bind (dumps output_dict true (lit ",", lit ":")) (fun json_str =>
  bind (encode_utf8 json_str) (fun data =>
  let result_hash := Sha256.hexdigest (Sha256.sha256 data) in
  Ok (lit "0x" ++ result_hash))).

(** [ONNXEngine.prepare_input]; the conversion of each input to a
    [float32] array is left to [session_run]. *)
Fixpoint prepare_input_loop (names : list str) (input_data : list (str * json))
    (prepared : list (str * json)) : result (list (str * json)) :=
  match names with
  | [] => Ok prepared
  | name :: rest =>
      if negb (dict_has input_data name) then Raise ValueError
      else
        bind (dict_get input_data name) (fun arr =>
        prepare_input_loop rest input_data (dict_set prepared name arr))
  end.

Definition prepare_input (self : engine) (input_data : list (str * json))
  : result (list (str * json)) :=
  prepare_input_loop (input_names self) input_data [].

(** [ONNXEngine.run_inference] *)
Definition run_inference (self : engine) (input_data : list (str * json))
  : result (list (str * json) * str) :=
  try_except
    (bind (prepare_input self input_data) (fun prepared_inputs =>
     bind (session_run self prepared_inputs) (fun outputs =>
     let output_dict :=
       fold_left (fun d nt => dict_set d (fst nt) (snd nt))
                 (combine (output_names self) outputs) [] in
     bind (compute_hash (JDict output_dict)) (fun result_hash =>
     Ok (output_dict, result_hash)))))
    (fun e => Raise e).

End ONNXEngine.

(** [engine/vllm_runtime.py] *)
Module VLLMEngine.

Local Open Scope Z_scope.

(** [SamplingParams(...)] as [run_inference] builds it. *)
Record sampling_params : Type := {
  sp_temperature : spec_float;
  sp_max_tokens : Z;
  sp_seed : Z;
  sp_top_p : spec_float;
  sp_top_k : Z;
  sp_use_beam_search : bool
}.

(** A [VLLMEngine] instance.  [llm_generate] stands for [LLM.generate]
    followed by the extraction of [output.outputs[0].text] from each
    request output. *)
Record engine : Type := {
  model_name : str;
  llm_generate : list str -> sampling_params -> result (list str)
}.

(** [VLLMEngine.compute_hash] *)
Definition compute_hash (results : json) : result str :=
  bind (dumps results true (lit ",", lit ":")) (fun json_str =>
  bind (encode_utf8 json_str) (fun data =>
  let result_hash := Sha256.hexdigest (Sha256.sha256 data) in
  Ok (lit "0x" ++ result_hash))).

Definition f_1_0 : spec_float := S754_finite false 4503599627370496 (-52).

(** The dict that [run_inference] hashes. *)
Definition inference_results (self : engine) (prompts generated_texts : list str)
    (max_tokens : Z) (temperature : spec_float) : json :=
  JDict
    [ (lit "prompts", JList (map JStr prompts));
      (lit "outputs", JList (map JStr generated_texts));
      (lit "model", JStr (model_name self));
      (lit "params",
        JDict [ (lit "max_tokens", JInt max_tokens);
                (lit "temperature", JFloat temperature);
                (lit "seed", JInt 0) ]) ].

(** [VLLMEngine.run_inference] *)
Definition run_inference (self : engine) (prompts : list str)
    (max_tokens : Z) (temperature : spec_float)
  : result (list str * str) :=
  try_except
    (let sampling_params :=
       {| sp_temperature := temperature;
          sp_max_tokens := max_tokens;
          sp_seed := 0;
          sp_top_p := f_1_0;
          sp_top_k := -1;
          sp_use_beam_search := false |} in
     bind (llm_generate self prompts sampling_params) (fun generated_texts =>
     let results :=
       inference_results self prompts generated_texts max_tokens temperature in
     bind (compute_hash results) (fun result_hash =>
     Ok (generated_texts, result_hash))))
    (fun e => Raise e).

(** The dict that [run_batch] hashes. *)
Definition batch_results (self : engine) (all_outputs : list str)
    (batch_size : Z) : json :=
  JDict
    [ (lit "outputs", JList (map JStr all_outputs));
      (lit "model", JStr (model_name self));
      (lit "batch_size", JInt batch_size) ].

(** The loop of [run_batch]: one [run_inference] per start index, at the
    default temperature, the outputs appended in turn. *)
Fixpoint batch_loop (self : engine) (prompts : list str)
    (batch_size max_tokens : Z) (starts : list Z) (all_outputs : list str)
  : result (list str) :=
  match starts with
  | [] => Ok all_outputs
  | i :: rest =>
      let batch := slice prompts i (i + batch_size) in
      bind (run_inference self batch max_tokens PyFloat.f_0_0) (fun r =>
      batch_loop self prompts batch_size max_tokens rest
                 (all_outputs ++ fst r))
  end.

(** [VLLMEngine.run_batch] *)
Definition run_batch (self : engine) (prompts : list str)
    (batch_size max_tokens : Z) : result (list str * str) :=
  bind (range 0 (Z.of_nat (length prompts)) batch_size) (fun starts =>
  bind (batch_loop self prompts batch_size max_tokens starts [])
       (fun all_outputs =>
  let results := batch_results self all_outputs batch_size in
  bind (compute_hash results) (fun combined_hash =>
  Ok (all_outputs, combined_hash)))).

End VLLMEngine.

(** ** [shared/ipfs_utils.py] *)

Module Ipfs.

Local Open Scope Z_scope.

(** What the IPFS HTTP API answers to [POST /add]: a status and, through
    [response.json()], an object with string fields ([Name], [Hash],
    [Size]); [json_body] raises when the body is not such an object. *)
Record post_response : Type := {
  post_status : Z;
  json_body : result (list (str * str))
}.

(** What a gateway answers to [GET]: a status and the body, in the chunks
    that [iter_chunked] yields. *)
Record get_response : Type := {
  get_status : Z;
  chunks : list bytes
}.

(** [result['Hash']] *)
Fixpoint lookup (d : list (str * str)) (k : str) : result str :=
  match d with
  | [] => Raise KeyError
  | (k', v) :: r => if str_eqb k' k then Ok v else lookup r k
  end.

(** [upload_to_ipfs].  [post url payload] is the outcome of
    [session.post(url, data=form_data)]: a response, or an exception when
    the node cannot be reached. *)
Definition upload_to_ipfs (post : str -> bytes -> result post_response)
    (data : str) (ipfs_api : str) : result str :=
  try_except
    (bind (encode_utf8 data) (fun payload =>
     bind (post (ipfs_api ++ lit "/add") payload) (fun response =>
     if negb (post_status response =? 200) then Raise GenericException
     else
       bind (json_body response) (fun result =>
       bind (lookup result (lit "Hash")) (fun cid =>
       Ok (lit "ipfs://" ++ cid))))))
    (fun _ =>
       bind (encode_utf8 data) (fun payload =>
       let content_hash := Sha256.hexdigest (Sha256.sha256 payload) in
       Ok (lit "0x" ++ content_hash))).

(** [verify_cid] *)
Definition verify_cid (data : bytes) (expected_cid : str) : bool :=
  let actual_hash := Sha256.hexdigest (Sha256.sha256 data) in
  endswith expected_cid (firstn 32 actual_hash).

(** *** [download_from_ipfs] under the event loop

    A call runs without interruption up to its first point of suspension,
    the wait for the gateway's response; it resumes when the response is
    there, and the body is taken to be wholly there by then.  Other calls
    run in between.  The cache directory and the log
    of requests sent to the gateway are shared by all calls. *)

Record world : Type := {
  files : list (str * bytes);
  requests : list str
}.

Inductive task : Type :=
| Ready (cid gateway : str)
| Awaiting (cache_path url : str)
| Returned (path : str)
| Raised (e : exn).

Section Download.

(** [Path.home()] and the gateway's behaviour. *)
Variable home : str.
Variable http_get : str -> result get_response.

(** [cid[7:]] when [cid] starts with [ipfs://]. *)
Definition strip_scheme (cid : str) : str :=
  if startswith cid (lit "ipfs://") then skipn 7 cid else cid.

(** [dir / name]: an absolute [name] replaces [dir]. *)
Definition path_join (dir name : str) : str :=
  if startswith name (lit "/") then name else dir ++ lit "/" ++ name.

Definition cache_dir : str :=
  path_join (path_join home (lit ".tensora")) (lit "ipfs_cache").

Definition cache_path_of (cid : str) : str :=
  path_join cache_dir (strip_scheme cid).

Definition exists_file (w : world) (path : str) : bool :=
  existsb (fun f => str_eqb (fst f) path) (files w).

(** [open(path, 'wb')] and the writes: the file holds the new content. *)
Definition write_file (w : world) (path : str) (content : bytes) : world :=
  {| files := (path, content)
              :: filter (fun f => negb (str_eqb (fst f) path)) (files w);
     requests := requests w |}.

(** One uninterrupted stretch of one call. *)
Definition step (w : world) (t : task) : world * task :=
  match t with
  | Ready cid gateway =>
      let cid := strip_scheme cid in
      let url := gateway ++ cid in
      let cache_path := path_join cache_dir cid in
      if exists_file w cache_path then (w, Returned cache_path)
      else
        ({| files := files w; requests := requests w ++ [url] |},
         Awaiting cache_path url)
  | Awaiting cache_path url =>
      match http_get url with
      | Raise e => (w, Raised e)
      | Ok response =>
          if negb (get_status response =? 200) then
            (w, Raised GenericException)
          else
            (write_file w cache_path (concat (chunks response)),
             Returned cache_path)
      end
  | Returned _ | Raised _ => (w, t)
  end.

(** The event loop: the schedule names, turn by turn, the call that runs
    its next stretch. *)
Fixpoint set_nth {A} (n : nat) (x : A) (l : list A) : list A :=
  match n, l with
  | _, [] => []
  | O, _ :: r => x :: r
  | S n', y :: r => y :: set_nth n' x r
  end.

Definition turn (st : world * list task) (i : nat) : world * list task :=
  match nth_error (snd st) i with
  | None => st
  | Some t =>
      let '(w', t') := step (fst st) t in
      (w', set_nth i t' (snd st))
  end.

Definition run (schedule : list nat) (st : world * list task)
  : world * list task :=
  fold_left turn schedule st.

(** A single call run to its end. *)
Definition download_from_ipfs (w : world) (cid gateway : str)
  : world * task :=
  let '(w1, t1) := step w (Ready cid gateway) in
  step w1 t1.

End Download.

(** What [pin_to_ipfs] logs: [Pinned: cid] at level info, or one of two
    warnings, for an answer other than 200 and for an exception. *)
Inductive pin_log : Type :=
| Pinned (cid : str)
| PinFailed (status : Z)
| FailedToPin (cid : str) (e : exn).

(** [pin_to_ipfs].  [post url] is the outcome of [session.post(url)], the
    status of the response or an exception.  The Python function returns
    [None]; the value here is the line it logs. *)
Definition pin_to_ipfs (post : str -> result Z) (cid ipfs_api : str)
  : result pin_log :=
  let cid := if startswith cid (lit "ipfs://") then skipn 7 cid else cid in
  try_except
    (bind (post (ipfs_api ++ lit "/pin/add?arg=" ++ cid)) (fun status =>
     if status =? 200 then Ok (Pinned cid) else Ok (PinFailed status)))
    (fun e => Ok (FailedToPin cid e)).

End Ipfs.

(** ** [shared/rpc_client.py] *)

Module Rpc.

Local Open Scope Z_scope.

(** The transaction dict. *)
Record tx : Type := {
  tx_from : str;
  tx_nonce : Z;
  tx_value : Z;
  tx_gas : Z;
  tx_gasPrice : Z;
  tx_to : str;
  tx_data : bytes
}.

Definition set_gas (t : tx) (gas : Z) : tx :=
  {| tx_from := tx_from t; tx_nonce := tx_nonce t; tx_value := tx_value t;
     tx_gas := gas; tx_gasPrice := tx_gasPrice t; tx_to := tx_to t;
     tx_data := tx_data t |}.

Record receipt : Type := {
  receipt_status : Z
}.

(** A bound contract function, [getattr(contract.functions, name)] applied
    to the arguments: the contract it is sent to and the encoded call, or the exception that
    encoding it raises. *)
Record contract_function : Type := {
  fn_address : str;
  fn_data : result bytes
}.

(** The node and the wallet as [send_transaction] meets them: each call
    returns or raises. *)
Record chain : Type := {
  wallet_address : str;
  to_checksum_address : str -> result str;
  bind_function : str -> str -> list json -> result contract_function;
  get_transaction_count : str -> result Z;
  gas_price : result Z;
  estimate_gas : tx -> result Z;
  sign_transaction : tx -> result bytes;
  send_raw_transaction : bytes -> result bytes;
  wait_for_transaction_receipt : bytes -> Z -> result receipt;
  hex : bytes -> str
}.

(** [int(estimated_gas * 1.2)] in binary64 arithmetic. *)
Definition gas_with_buffer (estimated_gas : Z) : result Z :=
  bind (PyFloat.float_of_int estimated_gas) (fun x =>
  PyFloat.int_of_float (PyFloat.fmul x PyFloat.f_1_2)).

(** The part of [send_transaction] under "Estimate gas". *)
Definition estimate (c : chain) (t : tx) : tx :=
  match bind (estimate_gas c t) gas_with_buffer with
  | Ok gas => set_gas t gas
  | Raise _ => t
  end.

(** The part of [send_transaction] from "Sign and send" on. *)
Definition sign_and_send (c : chain) (t : tx) : result str :=
  bind (sign_transaction c t) (fun raw_transaction =>
  bind (send_raw_transaction c raw_transaction) (fun tx_hash =>
  bind (wait_for_transaction_receipt c tx_hash 120) (fun r =>
  if receipt_status r =? 1 then Ok (hex c tx_hash)
  else Raise GenericException))).

(** [function.build_transaction(params)]: the fields given are kept, [to]
    and [data] are filled in. *)
Definition build_transaction (function : contract_function) (params : tx)
  : result tx :=
  bind (fn_data function) (fun data =>
  Ok {| tx_from := tx_from params; tx_nonce := tx_nonce params;
        tx_value := tx_value params; tx_gas := tx_gas params;
        tx_gasPrice := tx_gasPrice params;
        tx_to := fn_address function; tx_data := data |}).

(** The part of [send_transaction] up to [build_transaction]. *)
Definition build (c : chain) (contract_address function_name : str)
    (args : list json) (value : Z) : result tx :=
  bind (to_checksum_address c contract_address) (fun address =>
  bind (bind_function c address function_name args) (fun function =>
  bind (get_transaction_count c (wallet_address c)) (fun nonce =>
  bind (gas_price c) (fun price =>
  build_transaction function
    {| tx_from := wallet_address c; tx_nonce := nonce; tx_value := value;
       tx_gas := 500000; tx_gasPrice := price; tx_to := []; tx_data := [] |})))).

(** [TensoraRPC.send_transaction] *)
Definition send_transaction (c : chain) (contract_address function_name : str)
    (args : list json) (value : Z) : result str :=
  try_except
    (bind (build c contract_address function_name args value) (fun t =>
     sign_and_send c (estimate c t)))
    (fun e => Raise e).

(** The wallet as [sign_message] meets it: [account.signHash], which
    returns the signature or raises, and [signature.hex()]. *)
Record wallet : Type := {
  signHash : bytes -> result bytes;
  signature_hex : bytes -> str
}.

(** [TensoraRPC.sign_message], the same in [shared/rpc_client.py] and in
    [miner-node/rpc_client.py]. *)
Definition sign_message (account : wallet) (message : str) : result str :=
  bind (encode_utf8 message) (fun data =>
  let message_hash := Sha256.digest (Sha256.sha256 data) in
  bind (signHash account message_hash) (fun signature =>
  Ok (signature_hex account signature))).

End Rpc.

(** ** Properties the specification speaks of *)

Module Spec.

(** A value whose dicts have pairwise distinct keys at every level, as
    every Python value has. *)
Unset Elimination Schemes.
Inductive well_formed : json -> Prop :=
| wf_null : well_formed JNull
| wf_bool b : well_formed (JBool b)
| wf_int n : well_formed (JInt n)
| wf_float f : well_formed (JFloat f)
| wf_str s : well_formed (JStr s)
| wf_list l : Forall well_formed l -> well_formed (JList l)
| wf_dict d :
    NoDup (map fst d) ->
    Forall (fun kv => well_formed (snd kv)) d ->
    well_formed (JDict d).

(** Two values that hold the same data and differ at most in the order in
    which the items of their dicts were inserted. *)
Inductive same_items : json -> json -> Prop :=
| same_null : same_items JNull JNull
| same_bool b : same_items (JBool b) (JBool b)
| same_int n : same_items (JInt n) (JInt n)
| same_float f : same_items (JFloat f) (JFloat f)
| same_str s : same_items (JStr s) (JStr s)
| same_list l1 l2 :
    Forall2 same_items l1 l2 -> same_items (JList l1) (JList l2)
| same_dict d1 d1' d2 :
    Permutation d1 d1' ->
    Forall2 (fun a b => fst a = fst b /\ same_items (snd a) (snd b)) d1' d2 ->
    same_items (JDict d1) (JDict d2).
Set Elimination Schemes.

(** A value with a NaN or an infinity somewhere inside. *)
Definition non_finite (f : spec_float) : bool :=
  match f with
  | S754_nan | S754_infinity _ => true
  | _ => false
  end.

Inductive has_non_finite : json -> Prop :=
| nf_float f : non_finite f = true -> has_non_finite (JFloat f)
| nf_list l x : In x l -> has_non_finite x -> has_non_finite (JList l)
| nf_dict d k x : In (k, x) d -> has_non_finite x -> has_non_finite (JDict d).

(** Text made of ASCII characters only, and of lowercase hexadecimal
    digits only. *)
Definition is_ascii (s : str) : Prop := Forall (fun c => (c < 128)%N) s.

Definition is_hex_digit (c : codepoint) : Prop :=
  ((48 <= c <= 57) \/ (97 <= c <= 102))%N.

Definition is_lower_hex (s : str) : Prop := Forall is_hex_digit s.

(** Items in strictly increasing key order. *)
Definition key_lt {A} (x y : str * A) : Prop :=
  str_ltb (fst x) (fst y) = true.

(** The canonical serialisation that [compute_hash] digests. *)
Definition canonical (v : json) : result str :=
  dumps v true (lit ",", lit ":").

(** The sixteen lowercase hexadecimal digits, and every string of [k] of
    them: the digests that can exist. *)
Definition hex_alphabet : list codepoint :=
  [48; 49; 50; 51; 52; 53; 54; 55; 56; 57; 97; 98; 99; 100; 101; 102]%N.

Fixpoint all_hex (k : nat) : list str :=
  match k with
  | O => [[]]
  | S k' => flat_map (fun c => map (cons c) (all_hex k')) hex_alphabet
  end.

(** A family of output dicts, one for each length: [{"k": "aa...a"}]. *)
Definition padded (n : nat) : json :=
  JDict [(lit "k", JStr (repeat 97%N n))].

(** Sample values. *)
Definition f_2_0 : spec_float := S754_finite false 4503599627370496 (-51).
Definition f_3_0 : spec_float := S754_finite false 6755399441055744 (-51).

Definition sample_inner : list (str * json) :=
  [ (lit "y", JNull); (lit "x", JFloat PyFloat.f_0_0) ].

Definition sample_inner_reordered : list (str * json) :=
  [ (lit "x", JFloat PyFloat.f_0_0); (lit "y", JNull) ].

Definition sample_dict : json :=
  JDict [ (lit "b", JInt 1); (lit "a", JDict sample_inner) ].

Definition sample_dict_reordered : json :=
  JDict [ (lit "a", JDict sample_inner_reordered); (lit "b", JInt 1) ].


(** The text the encoder gives with sorted keys and [allow_nan] at its
    default, where it never raises. *)
Definition encoded_text (item_separator key_separator : str) (v : json)
  : str :=
  match encode true true item_separator key_separator v with
  | Ok t => t
  | Raise _ => []
  end.

(** The text of the canonical form, [compute_hash] never raising. *)
Definition canon_text (v : json) : str :=
  match canonical v with
  | Ok t => t
  | Raise _ => []
  end.

(** Two ONNX engines over different model files whose sessions give the
    same output, [{"y": [[3.0]]}], and an input for them. *)
Definition sample_session (inputs : list (str * json)) : result (list json) :=
  Ok [JList [JList [JFloat f_3_0]]].

Definition sample_onnx (path : string) : ONNXEngine.engine :=
  {| ONNXEngine.model_path := lit path;
     ONNXEngine.input_names := [lit "x"];
     ONNXEngine.output_names := [lit "y"];
     ONNXEngine.session_run := sample_session |}.

Definition sample_input : list (str * json) :=
  [ (lit "x", JList [JList [JFloat VLLMEngine.f_1_0; JFloat f_2_0]]) ].

(** A generative engine that answers each prompt on its own: here with
    the prompt itself. *)
Definition echo_engine : VLLMEngine.engine :=
  {| VLLMEngine.model_name := lit "m";
     VLLMEngine.llm_generate := fun prompts _ => Ok (map (fun p => p) prompts) |}.

Definition abc : list str := [lit "a"; lit "b"; lit "c"].



(** A node that accepts everything: the gas estimate is [estimated] when
    there is one, and the receipt carries [status]. *)
Definition sample_chain (estimated : result Z) (status : Z) : Rpc.chain :=
  {| Rpc.wallet_address := lit "0xabc";
     Rpc.to_checksum_address := fun a => Ok a;
     Rpc.bind_function :=
       fun a _ _ => Ok {| Rpc.fn_address := a; Rpc.fn_data := Ok [] |};
     Rpc.get_transaction_count := fun _ => Ok 7%Z;
     Rpc.gas_price := Ok 1000000000%Z;
     Rpc.estimate_gas := fun _ => estimated;
     Rpc.sign_transaction := fun t => Ok [byte_of_N (Z.to_N (Rpc.tx_gas t / 256));
                                          byte_of_N (Z.to_N (Rpc.tx_gas t))];
     Rpc.send_raw_transaction := fun raw => Ok raw;
     Rpc.wait_for_transaction_receipt :=
       fun _ _ => Ok {| Rpc.receipt_status := status |};
     Rpc.hex := fun b => flat_map (fun x => hex_fixed 2 (Z.of_N (Byte.to_N x))) b |}.

(** An IPFS node that cannot be reached, and one that accepts the upload
    and assigns the CID [QmResult]. *)
Definition unreachable (url : str) (payload : bytes)
  : result Ipfs.post_response :=
  Raise ConnectionError.

Definition accepting (url : str) (payload : bytes)
  : result Ipfs.post_response :=
  Ok {| Ipfs.post_status := 200;
        Ipfs.json_body := Ok [(lit "Name", lit "data.json");
                              (lit "Hash", lit "QmResult");
                              (lit "Size", lit "3")] |}.

Definition api : str := lit "http://localhost:5001/api/v0".

(** A string holding one lone surrogate, U+D800. *)
Definition lone_surrogate : str := [0xD800%N].

(** A gateway that serves three bytes for every address, an empty cache,
    and two calls for one address. *)
Definition sample_gateway (url : str) : result Ipfs.get_response :=
  Ok {| Ipfs.get_status := 200; Ipfs.chunks := [[x01; x02]; [x03]] |}.

Definition empty_world : Ipfs.world :=
  {| Ipfs.files := []; Ipfs.requests := [] |}.

Definition gateway_url : str := lit "https://ipfs.io/ipfs/".


(** The calls that have not yet looked at the cache. *)
Definition is_ready (t : Ipfs.task) : nat :=
  match t with
  | Ipfs.Ready _ _ => 1
  | _ => 0
  end.

Definition count_ready (tasks : list Ipfs.task) : nat :=
  list_sum (map is_ready tasks).


(** The keys of a dict, in insertion order. *)
Definition keys (d : list (str * json)) : list str := map fst d.

(** The content of a file of the cache, if it is there. *)
Fixpoint read_file (files : list (str * bytes)) (path : str) : option bytes :=
  match files with
  | [] => None
  | (p, content) :: r => if str_eqb p path then Some content else read_file r path
  end.



(** A wallet whose signature is the hash itself. *)
Definition sample_wallet : Rpc.wallet :=
  {| Rpc.signHash := fun h => Ok h;
     Rpc.signature_hex :=
       fun b => flat_map (fun x => hex_fixed 2 (Z.of_N (Byte.to_N x))) b |}.

End Spec.

Import Spec.

(** ** Strings *)

Section StrFacts.

Lemma str_eqb_refl (s : str) : str_eqb s s = true.
Proof.
  induction s as [|c s IH]; simpl; [reflexivity|].
  now rewrite N.eqb_refl.
Qed.

Lemma str_eqb_eq (s t : str) : str_eqb s t = true <-> s = t.
Proof.
  split.
  - revert t. induction s as [|c s IH]; intros [|d t] H; simpl in H;
      try discriminate; [reflexivity|].
    apply andb_true_iff in H as [Hc Hs].
    apply N.eqb_eq in Hc. f_equal; auto.
  - intros ->. apply str_eqb_refl.
Qed.


Lemma str_ltb_irrefl (s : str) : str_ltb s s = false.
Proof.
  induction s as [|c s IH]; simpl; [reflexivity|].
  now rewrite N.ltb_irrefl, N.eqb_refl.
Qed.

Lemma str_ltb_trans (a b c : str) :
  str_ltb a b = true -> str_ltb b c = true -> str_ltb a c = true.
Proof.
  revert b c. induction a as [|x a IH]; intros [|y b] [|z c];
    simpl; try discriminate; auto.
  destruct (N.ltb_spec x y), (N.ltb_spec y z), (N.ltb_spec x z);
    destruct (N.eqb_spec x y), (N.eqb_spec y z), (N.eqb_spec x z);
    try discriminate; try lia; auto.
  intros. eapply IH; eauto.
Qed.

Lemma str_ltb_asym (a b : str) :
  str_ltb a b = true -> str_ltb b a = false.
Proof.
  intros H. destruct (str_ltb b a) eqn:E; [|reflexivity].
  pose proof (str_ltb_trans _ _ _ H E) as T.
  rewrite str_ltb_irrefl in T. discriminate.
Qed.

Lemma str_ltb_total (a b : str) :
  a <> b -> str_ltb a b = true \/ str_ltb b a = true.
Proof.
  revert b. induction a as [|x a IH]; intros [|y b] H; simpl; auto.
  destruct (N.ltb_spec x y), (N.ltb_spec y x); auto; try lia.
    assert (x = y) by lia. subst y.
    rewrite N.eqb_refl. apply IH. congruence.
Qed.

End StrFacts.

(** ** Sorting of dict items *)

Section SortFacts.

Variable A : Type.
Implicit Types (x y : str * A) (l : list (str * A)).

Lemma insert_item_perm x l : Permutation (insert_item x l) (x :: l).
Proof.
  induction l as [|y r IH]; simpl; [reflexivity|].
  destruct (str_ltb (fst y) (fst x)); [|reflexivity].
  rewrite IH. apply perm_swap.
Qed.

Lemma sort_items_perm l : Permutation (sort_items l) l.
Proof.
  induction l as [|x r IH]; simpl; [reflexivity|].
  rewrite insert_item_perm. now constructor.
Qed.

Lemma insert_item_sorted x l :
  StronglySorted key_lt l ->
  ~ In (fst x) (map fst l) ->
  StronglySorted key_lt (insert_item x l).
Proof.
  induction l as [|y r IH]; simpl; intros Hs Hn.
  - repeat constructor.
  - inversion Hs as [|? ? Hr Hy]; subst.
    destruct (str_ltb (fst y) (fst x)) eqn:E.
    + constructor; [apply IH; tauto|].
      eapply Permutation_Forall; [symmetry; apply insert_item_perm|].
      constructor; assumption.
    + assert (Hxy : key_lt x y).
      { destruct (str_ltb_total (a:=fst x) (b:=fst y)) as [H|H];
          [intros Heq; apply Hn; left; now symmetry | exact H | congruence]. }
      constructor; [assumption|].
      constructor; [assumption|].
      eapply Forall_impl; [|exact Hy].
      intros z Hz. unfold key_lt in *. eapply str_ltb_trans; eauto.
Qed.

Lemma sort_items_sorted l :
  NoDup (map fst l) -> StronglySorted key_lt (sort_items l).
Proof.
  induction l as [|x r IH]; simpl; intros Hn.
  - constructor.
  - inversion Hn as [|? ? Hx Hr]; subst.
    apply insert_item_sorted; [auto|].
    intros Hin. apply Hx.
    eapply Permutation_in; [|exact Hin].
    apply Permutation_map, sort_items_perm.
Qed.

Lemma sorted_perm_eq l1 l2 :
  StronglySorted key_lt l1 -> StronglySorted key_lt l2 ->
  Permutation l1 l2 -> l1 = l2.
Proof.
  revert l2. induction l1 as [|a r1 IH]; intros l2 H1 H2 P.
  - apply Permutation_nil in P. now subst.
  - destruct l2 as [|b r2];
      [apply Permutation_sym, Permutation_nil in P; discriminate|].
    inversion H1 as [|? ? S1 F1]; inversion H2 as [|? ? S2 F2]; subst.
    assert (Hab : a = b).
    { assert (Ia : In a (b :: r2)) by (eapply Permutation_in; [exact P|now left]).
      assert (Ib : In b (a :: r1))
        by (eapply Permutation_in; [symmetry; exact P|now left]).
      destruct Ia as [->|Ia]; [reflexivity|].
      destruct Ib as [->|Ib]; [reflexivity|].
      rewrite Forall_forall in F1, F2.
      pose proof (F1 _ Ib) as L1. pose proof (F2 _ Ia) as L2.
      unfold key_lt in *. apply str_ltb_asym in L1. congruence. }
    subst b. f_equal. apply IH; auto.
    eapply Permutation_cons_inv; exact P.
Qed.

Lemma sort_items_perm_eq l1 l2 :
  NoDup (map fst l1) -> Permutation l1 l2 -> sort_items l1 = sort_items l2.
Proof.
  intros Hn P.
  apply sorted_perm_eq.
  - now apply sort_items_sorted.
  - apply sort_items_sorted.
    eapply Permutation_NoDup; [|exact Hn]. now apply Permutation_map.
  - rewrite !sort_items_perm. exact P.
Qed.

End SortFacts.

(** ** Induction on JSON values *)

Lemma json_ind (P : json -> Prop) :
  P JNull ->
  (forall b, P (JBool b)) ->
  (forall n, P (JInt n)) ->
  (forall f, P (JFloat f)) ->
  (forall s, P (JStr s)) ->
  (forall l, Forall P l -> P (JList l)) ->
  (forall d, Forall (fun kv => P (snd kv)) d -> P (JDict d)) ->
  forall v, P v.
Proof.
  intros Hnull Hbool Hint Hfloat Hstr Hlist Hdict.
  fix IH 1. intros [ | b | n | f | s | l | d ].
  - exact Hnull.
  - apply Hbool.
  - apply Hint.
  - apply Hfloat.
  - apply Hstr.
  - apply Hlist. induction l as [|x r IHr]; constructor; [apply IH|exact IHr].
  - apply Hdict. induction d as [|[k x] r IHr]; constructor;
      [apply IH|exact IHr].
Qed.

(** ** The loop combinator *)

Section CollectFacts.

Variables (A B : Type).
Implicit Types (f g : A -> result B) (l : list A).

Lemma collect_cons f x l :
  collect f (x :: l)
  = bind (f x) (fun t => bind (collect f l) (fun ts => Ok (t :: ts))).
Proof. reflexivity. Qed.

Lemma collect_ok f l :
  Forall (fun x => returns (f x)) l -> returns (collect f l).
Proof.
  induction 1 as [|x r [t Ht] _ [ts Hts]].
  - now exists [].
  - exists (t :: ts). rewrite collect_cons, Ht. simpl. now rewrite Hts.
Qed.

Lemma collect_inv f l ts :
  collect f l = Ok ts -> Forall2 (fun x t => f x = Ok t) l ts.
Proof.
  revert ts. induction l as [|x r IH]; intros ts H.
  - injection H as <-. constructor.
  - rewrite collect_cons in H.
    destruct (f x) as [t|] eqn:Hx; [|discriminate]. simpl in H.
    destruct (collect f r) as [ts'|] eqn:Hr; [|discriminate].
    injection H as <-. constructor; auto.
Qed.

Lemma collect_ext f g l :
  Forall (fun x => f x = g x) l -> collect f l = collect g l.
Proof.
  induction 1 as [|x r Hx _ IH]; [reflexivity|].
  now rewrite !collect_cons, Hx, IH.
Qed.

Lemma collect_raise f l x e :
  In x l -> f x = Raise e -> raises (collect f l).
Proof.
  induction l as [|y r IH]; intros Hin Hx; [destruct Hin|].
  destruct Hin as [->|Hin].
  - exists e. now rewrite collect_cons, Hx.
  - rewrite collect_cons. destruct (f y) as [t|e']; [|now exists e'].
    destruct (IH Hin Hx) as [e' He']. exists e'. simpl. now rewrite He'.
Qed.

End CollectFacts.

(** ** ASCII text *)

Ltac ascii_lit := solve [unfold is_ascii; simpl; repeat constructor].

Ltac ascii_split :=
  unfold is_ascii;
  repeat match goal with
         | |- Forall _ (_ ++ _) => apply Forall_app; split
         | |- Forall _ (_ :: _) => constructor; [reflexivity|]
         | |- Forall _ [] => constructor
         | |- Forall _ (lit _) => ascii_lit
         end;
  fold is_ascii.

Section AsciiFacts.

Lemma is_ascii_app (s t : str) : is_ascii s -> is_ascii t -> is_ascii (s ++ t).
Proof. unfold is_ascii. intros. apply Forall_app; auto. Qed.

Lemma is_ascii_join (sep : str) (parts : list str) :
  is_ascii sep -> Forall is_ascii parts -> is_ascii (join sep parts).
Proof.
  intros Hs. induction 1 as [|p r Hp Hr IH]; [constructor|].
  destruct r as [|q r]; [exact Hp|].
  change (is_ascii (p ++ sep ++ join sep (q :: r))).
  auto using is_ascii_app.
Qed.

Lemma hexchar_digit (d : Z) : (0 <= d < 16)%Z -> is_hex_digit (hexchar d).
Proof.
  intros H. unfold is_hex_digit, hexchar.
  destruct (Z.ltb_spec d 10); lia.
Qed.

Lemma nibble_range (x : Z) : (0 <= Z.land x 0xf < 16)%Z.
Proof.
  change 0xf%Z with (Z.ones 4). rewrite Z.land_ones by lia.
  apply Z.mod_pos_bound. reflexivity.
Qed.

Lemma hex_fixed_digits (count : nat) (x : Z) :
  is_lower_hex (hex_fixed count x).
Proof.
  unfold is_lower_hex, hex_fixed. apply Forall_map, Forall_forall.
  intros i _. apply hexchar_digit, nibble_range.
Qed.

Lemma hex_fixed_length (count : nat) (x : Z) :
  length (hex_fixed count x) = count.
Proof.
  unfold hex_fixed. now rewrite length_map, length_rev, length_seq.
Qed.

Lemma is_lower_hex_ascii (s : str) : is_lower_hex s -> is_ascii s.
Proof.
  apply Forall_impl. unfold is_hex_digit. intros c H. lia.
Qed.

Lemma uint_repr_ascii (d : Decimal.uint) :
  is_ascii (lit (NilEmpty.string_of_uint d)).
Proof.
  induction d; simpl; try (constructor; [reflexivity|exact IHd]).
  constructor.
Qed.

Lemma int_repr_ascii (n : Z) : is_ascii (int_repr n).
Proof.
  unfold int_repr. destruct (Z.to_int n) as [d|d]; simpl.
  - apply uint_repr_ascii.
  - constructor; [reflexivity|apply uint_repr_ascii].
Qed.

Lemma is_ascii_firstn (n : nat) (s : str) : is_ascii s -> is_ascii (firstn n s).
Proof.
  unfold is_ascii. intros H. rewrite <- (firstn_skipn n s) in H.
  apply Forall_app in H. tauto.
Qed.

Lemma is_ascii_skipn (n : nat) (s : str) : is_ascii s -> is_ascii (skipn n s).
Proof.
  unfold is_ascii. intros H. rewrite <- (firstn_skipn n s) in H.
  apply Forall_app in H. tauto.
Qed.

Lemma zeros_ascii (n : Z) : is_ascii (PyFloat.zeros n).
Proof.
  unfold PyFloat.zeros, is_ascii. apply Forall_forall.
  intros c Hc. apply repeat_spec in Hc. now subst.
Qed.

Lemma exp_repr_ascii (x : Z) : is_ascii (PyFloat.exp_repr x).
Proof.
  unfold PyFloat.exp_repr.
  repeat apply is_ascii_app; try apply int_repr_ascii.
  - destruct (x <? 0)%Z; ascii_lit.
  - destruct (Nat.ltb _ _); ascii_lit.
Qed.

Lemma format_short_ascii (cj : Z * Z) : is_ascii (PyFloat.format_short cj).
Proof.
  destruct cj as [c j]. unfold PyFloat.format_short.
  pose proof (int_repr_ascii c) as Hd.
  repeat match goal with
         | |- is_ascii (if ?b then _ else _) => destruct b
         | |- is_ascii (_ ++ _) => apply is_ascii_app
         | |- is_ascii (firstn _ _) => apply is_ascii_firstn
         | |- is_ascii (skipn _ _) => apply is_ascii_skipn
         | |- is_ascii (PyFloat.zeros _) => apply zeros_ascii
         | |- is_ascii (PyFloat.exp_repr _) => apply exp_repr_ascii
         | |- is_ascii (int_repr _) => exact Hd
         | |- is_ascii (lit _) => ascii_lit
         | |- is_ascii [] => constructor
         end.
Qed.

Lemma float_repr_ascii (f : spec_float) : is_ascii (PyFloat.float_repr f).
Proof.
  destruct f as [s|s| |s m e].
  - destruct s; ascii_lit.
  - destruct s; ascii_lit.
  - ascii_lit.
  - apply is_ascii_app; [destruct s; ascii_lit|apply format_short_ascii].
Qed.

Lemma floatstr_ascii (allow_nan : bool) (f : spec_float) (s : str) :
  floatstr allow_nan f = Ok s -> is_ascii s.
Proof.
  destruct f as [z|z| |z m e]; simpl.
  - intros [= <-]. apply (float_repr_ascii (S754_zero z)).
  - destruct z, allow_nan; intros [= <-]; ascii_lit.
  - destruct allow_nan; intros [= <-]; ascii_lit.
  - intros [= <-]. apply (float_repr_ascii (S754_finite z m e)).
Qed.

Lemma u_escape_ascii (n : N) : is_ascii (u_escape n).
Proof.
  unfold u_escape. apply is_ascii_app; [ascii_lit|].
  apply is_lower_hex_ascii, hex_fixed_digits.
Qed.

Lemma escape_char_ascii (c : codepoint) : is_ascii (escape_char c).
Proof.
  unfold escape_char.
  repeat match goal with
         | |- is_ascii (if (c =? ?k)%N then _ else _) =>
             destruct (N.eqb_spec c k); [ascii_lit|]
         end.
  destruct ((32 <=? c)%N && (c <=? 126)%N) eqn:E.
  - apply andb_true_iff in E as [_ H]. apply N.leb_le in H.
    constructor; [lia|constructor].
  - destruct (c <? 65536)%N; auto using is_ascii_app, u_escape_ascii.
Qed.

Lemma encode_basestring_ascii_ascii (s : str) :
  is_ascii (encode_basestring_ascii s).
Proof.
  unfold encode_basestring_ascii.
  repeat apply is_ascii_app; try ascii_lit.
  unfold is_ascii. apply Forall_flat_map, Forall_forall.
  intros c _. apply escape_char_ascii.
Qed.

(** An ASCII text encodes to itself, one byte per character. *)
Lemma encode_utf8_ascii (s : str) :
  is_ascii s -> encode_utf8 s = Ok (map byte_of_N s).
Proof.
  induction 1 as [|c r Hc _ IH]; [reflexivity|].
  simpl. unfold utf8_char.
  apply N.ltb_lt in Hc. rewrite Hc. simpl. now rewrite IH.
Qed.

End AsciiFacts.

(** ** The encoder *)

Section EncoderFacts.

Variables (sort_keys allow_nan : bool) (item_separator key_separator : str).

Let enc := encode sort_keys allow_nan item_separator key_separator.

Lemma encode_list_eq (l : list json) :
  enc (JList l)
  = bind (collect enc l) (fun ts =>
    Ok (lit "[" ++ join item_separator ts ++ lit "]")).
Proof. reflexivity. Qed.

Lemma encode_dict_eq (d : list (str * json)) :
  enc (JDict d)
  = bind (collect (encode_value_item sort_keys allow_nan item_separator
                                     key_separator) d) (fun kts =>
    let items := if sort_keys then sort_items kts else kts in
    Ok (lit "{" ++ join item_separator
                     (map (encode_item key_separator) items) ++ lit "}")).
Proof. reflexivity. Qed.

Lemma encode_value_item_inv (kv : str * json) (kt : str * str) :
  encode_value_item sort_keys allow_nan item_separator key_separator kv
  = Ok kt ->
  fst kt = fst kv /\ enc (snd kv) = Ok (snd kt).
Proof.
  unfold encode_value_item, enc.
  destruct (encode _ _ _ _ (snd kv)) as [t|]; simpl; [|discriminate].
  intros [= <-]. auto.
Qed.

(** Whatever the encoder returns is ASCII text, given ASCII separators. *)
Lemma encode_ascii :
  is_ascii item_separator -> is_ascii key_separator ->
  forall v s, enc v = Ok s -> is_ascii s.
Proof.
  intros Hi Hk v. induction v as [ | b | n | f | s0 | l IH | d IH ]
    using json_ind; intros s H.
  - injection H as <-. ascii_lit.
  - destruct b; injection H as <-; ascii_lit.
  - injection H as <-. apply int_repr_ascii.
  - eapply floatstr_ascii. exact H.
  - injection H as <-. apply encode_basestring_ascii_ascii.
  - rewrite encode_list_eq in H.
    destruct (collect enc l) as [ts|] eqn:Hc; [|discriminate].
    injection H as <-.
    ascii_split.
    apply is_ascii_join; [exact Hi|].
    apply collect_inv in Hc. clear -IH Hc.
    induction Hc as [|x t l ts Hx _ IHc]; constructor.
    + inversion IH; subst. eauto.
    + inversion IH; subst. auto.
  - rewrite encode_dict_eq in H.
    destruct (collect _ d) as [kts|] eqn:Hc; [|discriminate].
    injection H as <-.
    ascii_split.
    apply is_ascii_join; [exact Hi|].
    apply collect_inv in Hc.
    assert (Hall : Forall (fun kt => is_ascii (snd kt)) kts).
    { clear -IH Hc.
      induction Hc as [|x t l ts Hx _ IHc]; constructor.
      - inversion IH; subst.
        apply encode_value_item_inv in Hx as [_ Hx]. eauto.
      - inversion IH; subst. auto. }
    assert (Hall' : Forall (fun kt => is_ascii (snd kt))
                           (if sort_keys then sort_items kts else kts)).
    { destruct sort_keys; [|exact Hall].
      eapply Permutation_Forall; [symmetry; apply sort_items_perm|exact Hall]. }
    apply Forall_map. eapply Forall_impl; [|exact Hall'].
    intros kt Hkt. unfold encode_item.
    auto using is_ascii_app, encode_basestring_ascii_ascii.
Qed.

End EncoderFacts.

(** With [allow_nan] at its default the encoder returns on every value. *)
Lemma encode_returns (sort_keys : bool) (item_separator key_separator : str)
    (v : json) :
  returns (encode sort_keys true item_separator key_separator v).
Proof.
  induction v as [ | b | n | f | s0 | l IH | d IH ] using json_ind.
  - now eexists.
  - destruct b; now eexists.
  - now eexists.
  - destruct f as [z|z| |z m e]; try destruct z; now eexists.
  - now eexists.
  - rewrite encode_list_eq.
    destruct (collect_ok _ IH) as [ts Hts]. rewrite Hts. now eexists.
  - rewrite encode_dict_eq.
    assert (H : Forall (fun kv => returns
                (encode_value_item sort_keys true item_separator
                                   key_separator kv)) d).
    { eapply Forall_impl; [|exact IH].
      intros kv [t Ht]. exists (fst kv, t).
      unfold encode_value_item. now rewrite Ht. }
    destruct (collect_ok _ H) as [kts Hkts]. rewrite Hkts. now eexists.
Qed.

(** ** The digest *)

Lemma hexdigest_length (h : Sha256.hstate) :
  length (Sha256.hexdigest h) = 64%nat.
Proof. reflexivity. Qed.

Lemma hexdigest_lower_hex (h : Sha256.hstate) :
  is_lower_hex (Sha256.hexdigest h).
Proof.
  unfold Sha256.hexdigest, is_lower_hex.
  apply Forall_flat_map, Forall_forall.
  intros w _. apply hex_fixed_digits.
Qed.

(** ** [compute_hash] *)

(** The two engines carry the same [compute_hash]. *)
Lemma compute_hash_same (v : json) :
  VLLMEngine.compute_hash v = ONNXEngine.compute_hash v.
Proof. reflexivity. Qed.

(** [compute_hash] returns on every value, and what it returns is the
    digest of the canonical text, read as bytes. *)
Lemma compute_hash_eq (v : json) :
  exists text,
    canonical v = Ok text /\
    is_ascii text /\
    encode_utf8 text = Ok (map byte_of_N text) /\
    ONNXEngine.compute_hash v
    = Ok (lit "0x" ++ Sha256.hexdigest (Sha256.sha256 (map byte_of_N text))).
Proof.
  destruct (encode_returns true (lit ",") (lit ":") v) as [text Ht].
  assert (Ha : is_ascii text).
  { eapply encode_ascii; [| |exact Ht]; ascii_lit. }
  exists text. repeat split; auto.
  - now apply encode_utf8_ascii.
  - unfold ONNXEngine.compute_hash, dumps. simpl fst; simpl snd.
    rewrite Ht. simpl. now rewrite (encode_utf8_ascii Ha).
Qed.


(** ** Independence of the insertion order *)

Section OrderFacts.

Variables (item_separator key_separator : str).

Let enc := encode true true item_separator key_separator.
Let item := encode_value_item true true item_separator key_separator.

Lemma collect_same (l1 l2 : list json) :
  Forall (fun v => forall v', well_formed v -> same_items v v' ->
                              enc v = enc v') l1 ->
  Forall well_formed l1 ->
  Forall2 same_items l1 l2 ->
  collect enc l1 = collect enc l2.
Proof.
  intros IH Hwf Hs. induction Hs as [|x y r1 r2 Hxy _ IHs]; [reflexivity|].
  inversion IH as [|? ? Hx IHr]; inversion Hwf as [|? ? Wx Wr]; subst.
  rewrite !collect_cons, (Hx y Wx Hxy). now rewrite IHs.
Qed.

Let text_of := encoded_text item_separator key_separator.

Lemma collect_items (d : list (str * json)) :
  collect item d = Ok (map (fun kv => (fst kv, text_of (snd kv))) d).
Proof.
  induction d as [|[k v] r IH]; [reflexivity|].
  rewrite collect_cons, IH.
  unfold item, encode_value_item, text_of, encoded_text, enc.
  simpl. destruct (encode_returns true item_separator key_separator v)
    as [t Ht].
  now rewrite Ht.
Qed.

Lemma encode_same_items (v1 : json) :
  forall v2, well_formed v1 -> same_items v1 v2 -> enc v1 = enc v2.
Proof.
  induction v1 as [ | b | n | f | s0 | l IH | d IH ] using json_ind;
    intros v2 Hwf Hs; inversion Hs; subst; try reflexivity.
  - (* lists *)
    inversion Hwf; subst.
    unfold enc. rewrite !encode_list_eq. fold enc.
    erewrite (collect_same IH); eauto.
  - (* dicts *)
    inversion Hwf as [ | | | | | |? Hnd Hall]; subst.
    unfold enc. rewrite !encode_dict_eq. fold item.
    rewrite !collect_items. simpl.
    set (g := fun kv : str * json => (fst kv, text_of (snd kv))).
    enough (Hsort : sort_items (map g d) = sort_items (map g d2))
      by now rewrite Hsort.
    assert (Hmap : map g d1' = map g d2).
    { assert (IH' : Forall (fun kv => forall v', well_formed (snd kv) ->
                       same_items (snd kv) v' -> enc (snd kv) = enc v') d1')
        by (eapply Permutation_Forall; eassumption).
      assert (Hall' : Forall (fun kv => well_formed (snd kv)) d1')
        by (eapply Permutation_Forall; eassumption).
      clear -IH' Hall' H1.
      induction H1 as [|a b r1 r2 [Hk Hv] _ IHf]; [reflexivity|].
      inversion IH' as [|? ? Ha IHr]; inversion Hall' as [|? ? Wa Wr]; subst.
      simpl. f_equal; [|auto].
      unfold g, text_of, encoded_text. fold enc.
      rewrite Hk. now rewrite (Ha (snd b) Wa Hv). }
    rewrite <- Hmap.
    apply sort_items_perm_eq.
    + rewrite map_map. simpl. exact Hnd.
    + now apply Permutation_map.
Qed.

End OrderFacts.

Lemma compute_hash_same_items (v1 v2 : json) :
  well_formed v1 -> same_items v1 v2 ->
  ONNXEngine.compute_hash v1 = ONNXEngine.compute_hash v2.
Proof.
  intros Hwf Hs. unfold ONNXEngine.compute_hash, dumps.
  now rewrite (encode_same_items _ _ Hwf Hs).
Qed.

(** ** Digests are few, canonical texts are many *)

Lemma hex_alphabet_complete (c : codepoint) :
  is_hex_digit c -> In c hex_alphabet.
Proof.
  unfold is_hex_digit, hex_alphabet. intros H.
  assert (E : (c = 48 \/ c = 49 \/ c = 50 \/ c = 51 \/ c = 52 \/ c = 53 \/
               c = 54 \/ c = 55 \/ c = 56 \/ c = 57 \/ c = 97 \/ c = 98 \/
               c = 99 \/ c = 100 \/ c = 101 \/ c = 102)%N) by lia.
  simpl. intuition.
Qed.

Lemma all_hex_complete (s : str) :
  is_lower_hex s -> In s (all_hex (length s)).
Proof.
  induction 1 as [|c r Hc _ IH]; [now left|].
  change (In (c :: r)
    (flat_map (fun c => map (cons c) (all_hex (length r))) hex_alphabet)).
  apply in_flat_map. exists c. split.
  - now apply hex_alphabet_complete.
  - now apply in_map.
Qed.

Lemma compute_hash_in_image (v : json) :
  In (ONNXEngine.compute_hash v)
     (map (fun h => Ok (lit "0x" ++ h)) (all_hex 64)).
Proof.
  destruct (compute_hash_eq v) as (text & _ & _ & _ & ->).
  apply in_map with (f := fun h => Ok (lit "0x" ++ h)).
  set (h := Sha256.sha256 _).
  pose proof (all_hex_complete (hexdigest_lower_hex h)) as H.
  now rewrite hexdigest_length in H.
Qed.

Lemma escape_repeat_a (n : nat) :
  flat_map escape_char (repeat 97%N n) = repeat 97%N n.
Proof. induction n as [|n IH]; [reflexivity|]. simpl. now rewrite IH. Qed.

Lemma canonical_padded (n : nat) :
  canonical (padded n)
  = Ok ([123; 34; 107; 34; 58; 34]%N ++ repeat 97%N n ++ [34; 125]%N).
Proof.
  unfold canonical, dumps, padded. simpl.
  unfold encode_item, encode_basestring_ascii. simpl.
  rewrite escape_repeat_a. now rewrite <- app_assoc.
Qed.

Lemma canonical_padded_inj (n m : nat) :
  canonical (padded n) = canonical (padded m) -> n = m.
Proof.
  rewrite !canonical_padded. intros [= H].
  apply (f_equal (@length _)) in H.
  rewrite !length_app, !repeat_length in H. simpl in H. lia.
Qed.

Lemma padded_well_formed (n : nat) : well_formed (padded n).
Proof.
  constructor.
  - simpl. constructor; [intros []|constructor].
  - repeat constructor.
Qed.

Lemma map_inj_NoDup (A B : Type) (f : A -> B) (l : list A) :
  (forall x y, f x = f y -> x = y) -> NoDup l -> NoDup (map f l).
Proof.
  intros Hinj. induction 1 as [|x r Hx _ IH]; simpl; constructor; auto.
  intros Hin. apply in_map_iff in Hin as (y & E & Hy).
  apply Hinj in E. now subst.
Qed.

(** No function from the naturals into a finite list is one-to-one. *)
Lemma pigeonhole (B : Type) (f : nat -> B) (img : list B) :
  (forall n, In (f n) img) ->
  (forall n m, f n = f m -> n = m) ->
  False.
Proof.
  intros Hin Hinj.
  assert (Hnd : NoDup (map f (seq 0 (S (length img))))).
  { apply map_inj_NoDup; [exact Hinj|apply seq_NoDup]. }
  assert (Hincl : incl (map f (seq 0 (S (length img)))) img).
  { intros b Hb. apply in_map_iff in Hb as (n & <- & _). apply Hin. }
  pose proof (NoDup_incl_length Hnd Hincl) as Hlen.
  rewrite length_map, length_seq in Hlen. lia.
Qed.

(** C1, against the claim as stated: equal hashes do not force equal
    canonical forms for all values.  The hash is one of finitely many
    66-character strings, while the dicts [{"k": "a"}], [{"k": "aa"}], ...
    all have different canonical forms. *)
Lemma hash_equality_does_not_decide_canonical_form :
  ~ (forall v1 v2 : json,
       well_formed v1 -> well_formed v2 ->
       (ONNXEngine.compute_hash v1 = ONNXEngine.compute_hash v2
        <-> canonical v1 = canonical v2)).
Proof.
  intros H.
  apply (pigeonhole (fun n => ONNXEngine.compute_hash (padded n))
                    (map (fun h => Ok (lit "0x" ++ h)) (all_hex 64))).
  - intros n. apply compute_hash_in_image.
  - intros n m E. apply canonical_padded_inj.
    apply (H (padded n) (padded m)); auto using padded_well_formed.
Qed.

(** C1. The canonical hash of a value does not depend on the order in
    which the keys of its dicts were inserted, at any nesting level: two
    values that hold the same key-value pairs have the same hash, under
    either engine.  And values with the same canonical form have the same
    hash. *)
Theorem canonical_hash_order_independent (v1 v2 : json) :
  well_formed v1 ->
  same_items v1 v2 ->
  ONNXEngine.compute_hash v1 = ONNXEngine.compute_hash v2 /\
  VLLMEngine.compute_hash v1 = VLLMEngine.compute_hash v2 /\
  canonical v1 = canonical v2 /\
  (forall u1 u2, canonical u1 = canonical u2 ->
                 ONNXEngine.compute_hash u1 = ONNXEngine.compute_hash u2).
Proof.
  intros Hwf Hs. repeat split.
  - now apply compute_hash_same_items.
  - rewrite !compute_hash_same. now apply compute_hash_same_items.
  - unfold canonical, dumps. now apply encode_same_items.
  - intros u1 u2 E. unfold canonical in E.
    unfold ONNXEngine.compute_hash. now rewrite E.
Qed.

Lemma canonical_hash_order_independent_witness :
  well_formed sample_dict /\
  same_items sample_dict sample_dict_reordered /\
  ONNXEngine.compute_hash sample_dict
  = ONNXEngine.compute_hash sample_dict_reordered.
Proof.
  assert (Hwf : well_formed sample_dict).
  { constructor.
    - simpl. repeat constructor; simpl; intuition discriminate.
    - repeat constructor; simpl; intuition discriminate. }
  assert (Hs : same_items sample_dict sample_dict_reordered).
  { apply same_dict
      with (d1' := [(lit "a", JDict sample_inner); (lit "b", JInt 1)]).
    - apply perm_swap.
    - repeat constructor.
      apply same_dict with (d1' := sample_inner_reordered).
      + apply perm_swap.
      + repeat constructor. }
  split; [exact Hwf|]. split; [exact Hs|].
  exact (proj1 (canonical_hash_order_independent Hwf Hs)).
Defined.

(** ** Non-finite numbers *)

Lemma encode_strict_raises (v : json) (sort_keys : bool)
    (item_separator key_separator : str) :
  has_non_finite v ->
  raises (encode sort_keys false item_separator key_separator v).
Proof.
  induction 1 as [f Hf | l x Hin _ IH | d k x Hin _ IH].
  - destruct f as [z|z| |z m e]; try discriminate;
      try destruct z; now exists ValueError.
  - rewrite encode_list_eq.
    destruct IH as [e He].
    destruct (@collect_raise _ _
                (encode sort_keys false item_separator key_separator)
                l x e Hin He) as [e' He'].
    rewrite He'. now exists e'.
  - rewrite encode_dict_eq.
    destruct IH as [e He].
    assert (Hi : encode_value_item sort_keys false item_separator
                   key_separator (k, x) = Raise e).
    { unfold encode_value_item. simpl. now rewrite He. }
    destruct (@collect_raise _ _
                (encode_value_item sort_keys false item_separator
                                   key_separator)
                d (k, x) e Hin Hi) as [e' He'].
    rewrite He'. now exists e'.
Qed.



(** ** The text of a canonical form *)

Lemma canonical_canon_text (v : json) : canonical v = Ok (canon_text v).
Proof.
  unfold canon_text.
  destruct (encode_returns true (lit ",") (lit ":") v) as [t Ht].
  unfold canonical, dumps. simpl fst; simpl snd. now rewrite Ht.
Qed.


Lemma canon_text_dict (d : list (str * json)) :
  canon_text (JDict d)
  = lit "{"
    ++ join (lit ",")
         (map (encode_item (lit ":"))
            (sort_items (map (fun kv => (fst kv, canon_text (snd kv))) d)))
    ++ lit "}".
Proof.
  unfold canon_text at 1, canonical, dumps. simpl fst; simpl snd.
  rewrite encode_dict_eq, collect_items. reflexivity.
Qed.

(** ** Decimal integers *)

Lemma lit_inj (s t : string) : lit s = lit t -> s = t.
Proof.
  revert t. induction s as [|a s IH]; intros [|b t] H; try discriminate.
  - reflexivity.
  - unfold lit in H. simpl in H. injection H as Hab Hst.
    apply (f_equal ascii_of_N) in Hab. rewrite !ascii_N_embedding in Hab.
    f_equal; [exact Hab|]. now apply IH.
Qed.

Lemma int_repr_inj (a b : Z) : int_repr a = int_repr b -> a = b.
Proof.
  unfold int_repr. intros H. apply lit_inj in H.
  apply (f_equal NilEmpty.int_of_string) in H.
  rewrite !NilEmpty.isi in H. injection H as H.
  apply (f_equal Z.of_int) in H. now rewrite !DecimalZ.of_to in H.
Qed.

Lemma uint_repr_no_comma (d : Decimal.uint) :
  Forall (fun c => c <> 44%N) (lit (NilEmpty.string_of_uint d)).
Proof.
  induction d; simpl; try (constructor; [discriminate|exact IHd]).
  constructor.
Qed.

Lemma int_repr_no_comma (n : Z) : Forall (fun c => c <> 44%N) (int_repr n).
Proof.
  unfold int_repr. destruct (Z.to_int n) as [d|d]; simpl.
  - apply uint_repr_no_comma.
  - constructor; [discriminate|apply uint_repr_no_comma].
Qed.

(** Texts free of a delimiter, each followed by it, agree when what they
    start agrees. *)
Lemma delimited_inj (c : codepoint) (x y r1 r2 : str) :
  Forall (fun a => a <> c) x -> Forall (fun a => a <> c) y ->
  x ++ c :: r1 = y ++ c :: r2 -> x = y.
Proof.
  intros Hx. revert y. induction Hx as [|a x Ha _ IH]; intros y Hy H.
  - destruct Hy as [|b y Hb _]; [reflexivity|].
    simpl in H. injection H as E _. congruence.
  - destruct Hy as [|b y Hb Hy].
    + simpl in H. injection H as E _. congruence.
    + simpl in H. injection H as -> H. f_equal. now apply IH.
Qed.

Lemma int_repr_delimited (a b : Z) (r1 r2 : str) :
  int_repr a ++ 44%N :: r1 = int_repr b ++ 44%N :: r2 -> a = b.
Proof.
  intros H. apply int_repr_inj.
  eapply delimited_inj; [| |exact H]; apply int_repr_no_comma.
Qed.

(** ** What each engine hashes *)

Lemma onnx_hash_of_output (e : ONNXEngine.engine)
    (input out : list (str * json)) (h : str) :
  ONNXEngine.run_inference e input = Ok (out, h) ->
  ONNXEngine.compute_hash (JDict out) = Ok h.
Proof.
  unfold ONNXEngine.run_inference, try_except.
  destruct (ONNXEngine.prepare_input e input) as [prepared|]; simpl;
    [|discriminate].
  destruct (ONNXEngine.session_run e prepared) as [outputs|]; simpl;
    [|discriminate].
  destruct (ONNXEngine.compute_hash _) as [h'|] eqn:Hh; simpl;
    [|discriminate].
  intros [= <- <-]. exact Hh.
Qed.

Lemma vllm_hash_of_results (e : VLLMEngine.engine) (prompts outs : list str)
    (max_tokens : Z) (temperature : spec_float) (h : str) :
  VLLMEngine.run_inference e prompts max_tokens temperature = Ok (outs, h) ->
  VLLMEngine.compute_hash
    (VLLMEngine.inference_results e prompts outs max_tokens temperature)
  = Ok h.
Proof.
  unfold VLLMEngine.run_inference, try_except.
  destruct (VLLMEngine.llm_generate e prompts _) as [texts|]; simpl;
    [|discriminate].
  destruct (VLLMEngine.compute_hash _) as [h'|] eqn:Hh; simpl;
    [|discriminate].
  intros [= <- <-]. exact Hh.
Qed.

Lemma inference_text_max_tokens (e : VLLMEngine.engine)
    (prompts outs : list str) (mt1 mt2 : Z) (t1 t2 : spec_float) :
  canon_text (VLLMEngine.inference_results e prompts outs mt1 t1)
  = canon_text (VLLMEngine.inference_results e prompts outs mt2 t2) ->
  mt1 = mt2.
Proof.
  intros H. unfold VLLMEngine.inference_results in H.
  rewrite !canon_text_dict in H. cbn [map fst snd] in H.
  rewrite !canon_text_dict in H. cbn [map fst snd] in H.
  change (canon_text (JInt mt1)) with (int_repr mt1) in H.
  change (canon_text (JInt mt2)) with (int_repr mt2) in H.
  remember (canon_text (JList (map JStr prompts))) as a.
  remember (canon_text (JList (map JStr outs))) as b.
  remember (canon_text (JStr (VLLMEngine.model_name e))) as c.
  remember (canon_text (JFloat t1)) as f1.
  remember (canon_text (JFloat t2)) as f2.
  remember (int_repr mt1) as i1. remember (int_repr mt2) as i2.
  cbn in H.
  repeat first [ apply app_inv_head in H
               | injection H as H
               | rewrite <- app_assoc in H; cbn in H ].
  subst i1 i2. eapply int_repr_delimited. exact H.
Qed.

(** C3, against the claim as stated: the ONNX engine hashes the output
    dict alone.  Two engines over different model files that produce the
    output [{"y": [[3.0]]}] return the same hash, the SHA-256 of that
    text. *)
Lemma onnx_hash_ignores_engine :
  ONNXEngine.model_path (sample_onnx "a.onnx")
    <> ONNXEngine.model_path (sample_onnx "b.onnx") /\
  ONNXEngine.run_inference (sample_onnx "a.onnx") sample_input
  = Ok ([(lit "y", JList [JList [JFloat f_3_0]])],
        lit "0x333f1d3deec43d6902ccd8c9efb03d97f6a166e74cde711e52117d9104cf8642")
  /\
  ONNXEngine.run_inference (sample_onnx "b.onnx") sample_input
  = ONNXEngine.run_inference (sample_onnx "a.onnx") sample_input.
Proof.
  split; [discriminate|]. split; vm_compute; reflexivity.
Qed.

(** C3. The ONNX engine hashes its output dict alone, so two of its
    executions with the same output payload have the same hash whatever
    the model or settings behind them.  The generative engine's
    [run_inference] hashes the prompts and outputs together with the model
    name and the parameters [max_tokens], [temperature] and [seed], so two
    of its executions with the same prompts and outputs but a different
    [max_tokens] hash different canonical texts. *)
Theorem engine_metadata_in_hash
    (o1 o2 : ONNXEngine.engine) (in1 in2 out : list (str * json))
    (g1 g2 : str)
    (e : VLLMEngine.engine) (prompts outs : list str)
    (mt1 mt2 : Z) (t1 t2 : spec_float) (h1 h2 : str) :
  ONNXEngine.run_inference o1 in1 = Ok (out, g1) ->
  ONNXEngine.run_inference o2 in2 = Ok (out, g2) ->
  VLLMEngine.run_inference e prompts mt1 t1 = Ok (outs, h1) ->
  VLLMEngine.run_inference e prompts mt2 t2 = Ok (outs, h2) ->
  mt1 <> mt2 ->
  g1 = g2 /\
  ONNXEngine.compute_hash (JDict out) = Ok g1 /\
  VLLMEngine.compute_hash
    (VLLMEngine.inference_results e prompts outs mt1 t1) = Ok h1 /\
  VLLMEngine.compute_hash
    (VLLMEngine.inference_results e prompts outs mt2 t2) = Ok h2 /\
  canonical (VLLMEngine.inference_results e prompts outs mt1 t1)
    <> canonical (VLLMEngine.inference_results e prompts outs mt2 t2).
Proof.
  intros Ho1 Ho2 Hv1 Hv2 Hmt.
  apply onnx_hash_of_output in Ho1, Ho2.
  apply vllm_hash_of_results in Hv1, Hv2.
  repeat split; auto.
  - congruence.
  - rewrite !canonical_canon_text. intros [= H].
    apply Hmt. eapply inference_text_max_tokens. exact H.
Qed.

Lemma engine_metadata_in_hash_witness :
  let g := lit "0x333f1d3deec43d6902ccd8c9efb03d97f6a166e74cde711e52117d9104cf8642" in
  let h1 := lit "0x4242142630f75760658ff38451439a6a5cfaab8280fdfb587b577e5de2bd40d7" in
  let h2 := lit "0x84718cf7962b1165c1d45e9fef37cfffe7c5fb1e57560592be5cf3d19d80b28d" in
  ONNXEngine.run_inference (sample_onnx "a.onnx") sample_input
  = Ok ([(lit "y", JList [JList [JFloat f_3_0]])], g) /\
  VLLMEngine.run_inference echo_engine abc 100 PyFloat.f_0_0 = Ok (abc, h1) /\
  VLLMEngine.run_inference echo_engine abc 200 PyFloat.f_0_0 = Ok (abc, h2) /\
  (100 <> 200)%Z /\
  canonical (VLLMEngine.inference_results echo_engine abc abc 100
               PyFloat.f_0_0)
  <> canonical (VLLMEngine.inference_results echo_engine abc abc 200
                  PyFloat.f_0_0).
Proof.
  intros g h1 h2.
  assert (Ho : ONNXEngine.run_inference (sample_onnx "a.onnx") sample_input
               = Ok ([(lit "y", JList [JList [JFloat f_3_0]])], g))
    by (vm_compute; reflexivity).
  assert (H1 : VLLMEngine.run_inference echo_engine abc 100 PyFloat.f_0_0
               = Ok (abc, h1))
    by (vm_compute; reflexivity).
  assert (H2 : VLLMEngine.run_inference echo_engine abc 200 PyFloat.f_0_0
               = Ok (abc, h2))
    by (vm_compute; reflexivity).
  assert (Hne : (100 <> 200)%Z) by discriminate.
  repeat (split; [assumption|]).
  exact (proj2 (proj2 (proj2 (proj2
    (@engine_metadata_in_hash _ _ _ _ _ _ _ _ _ _ _ _ _ _ _ _
       Ho Ho H1 H2 Hne))))).
Defined.

(** ** Batches *)


Section BatchFacts.

Local Open Scope Z_scope.

Variables (e : VLLMEngine.engine) (g : VLLMEngine.sampling_params -> str -> str).

(** The model answers each prompt on its own, whatever the batch. *)
Hypothesis per_prompt :
  forall prompts sp, VLLMEngine.llm_generate e prompts sp = Ok (map (g sp) prompts).


Variables (prompts : list str) (batch_size max_tokens : Z).
Hypothesis batch_size_pos : 0 < batch_size.

Let b := Z.to_nat batch_size.








End BatchFacts.





(** ** The chain client *)

Lemma try_reraise (A : Type) (r : result A) :
  try_except r (fun e => Raise e) = r.
Proof. now destruct r. Qed.

Lemma send_transaction_eq (c : Rpc.chain) (address name : str)
    (args : list json) (value : Z) :
  Rpc.send_transaction c address name args value
  = bind (Rpc.build c address name args value)
         (fun t => Rpc.sign_and_send c (Rpc.estimate c t)).
Proof. unfold Rpc.send_transaction. apply try_reraise. Qed.

(** C6. [send_transaction] returns the transaction hash exactly when the
    transaction was built, signed and broadcast and the receipt that came
    back within the timeout reports status 1.  When the receipt reports
    another status, when no receipt arrives in time, or when signing or
    broadcast raises, it raises and returns no hash. *)
Theorem send_transaction_outcome (c : Rpc.chain) (address name : str)
    (args : list json) (value : Z) :
  (forall h,
     Rpc.send_transaction c address name args value = Ok h <->
     exists t raw tx_hash r,
       Rpc.build c address name args value = Ok t /\
       Rpc.sign_transaction c (Rpc.estimate c t) = Ok raw /\
       Rpc.send_raw_transaction c raw = Ok tx_hash /\
       Rpc.wait_for_transaction_receipt c tx_hash 120 = Ok r /\
       Rpc.receipt_status r = 1%Z /\
       h = Rpc.hex c tx_hash) /\
  (forall t,
     Rpc.build c address name args value = Ok t ->
     (raises (Rpc.sign_transaction c (Rpc.estimate c t)) \/
      exists raw,
        Rpc.sign_transaction c (Rpc.estimate c t) = Ok raw /\
        (raises (Rpc.send_raw_transaction c raw) \/
         exists tx_hash,
           Rpc.send_raw_transaction c raw = Ok tx_hash /\
           (raises (Rpc.wait_for_transaction_receipt c tx_hash 120) \/
            exists r,
              Rpc.wait_for_transaction_receipt c tx_hash 120 = Ok r /\
              Rpc.receipt_status r <> 1%Z))) ->
     raises (Rpc.send_transaction c address name args value)).
Proof.
  rewrite send_transaction_eq. split.
  - intros h. split.
    + destruct (Rpc.build c address name args value) as [t|]; simpl;
        [|discriminate].
      unfold Rpc.sign_and_send.
      destruct (Rpc.sign_transaction c _) as [raw|] eqn:Hs; simpl;
        [|discriminate].
      destruct (Rpc.send_raw_transaction c raw) as [tx_hash|] eqn:Hr; simpl;
        [|discriminate].
      destruct (Rpc.wait_for_transaction_receipt c tx_hash 120) as [r|]
        eqn:Hw; simpl; [|discriminate].
      destruct (Z.eqb_spec (Rpc.receipt_status r) 1); [|discriminate].
      intros [= <-]. now exists t, raw, tx_hash, r.
    + intros (t & raw & tx_hash & r & Hb & Hs & Hr & Hw & Hst & ->).
      rewrite Hb. simpl. unfold Rpc.sign_and_send.
      rewrite Hs. simpl. rewrite Hr. simpl. rewrite Hw. simpl.
      now rewrite Hst.
  - intros t Hb H. rewrite Hb. simpl. unfold Rpc.sign_and_send.
    destruct H as [[e He]|(raw & Hs & H)].
    { rewrite He. now exists e. }
    rewrite Hs. simpl.
    destruct H as [[e He]|(tx_hash & Hr & H)].
    { rewrite He. now exists e. }
    rewrite Hr. simpl.
    destruct H as [[e He]|(r & Hw & Hst)].
    { rewrite He. now exists e. }
    rewrite Hw. simpl.
    destruct (Z.eqb_spec (Rpc.receipt_status r) 1); [contradiction|].
    now exists GenericException.
Qed.

(** The outcomes on the sample node: confirmed with status 1, failed with
    status 0. *)
Lemma send_transaction_samples :
  Rpc.send_transaction (sample_chain (Ok 21000%Z) 1) (lit "0xc") (lit "acceptJob")
    [JInt 1] 0 = Ok (lit "6270") /\
  Rpc.send_transaction (sample_chain (Ok 21000%Z) 0) (lit "0xc") (lit "acceptJob")
    [JInt 1] 0 = Raise GenericException /\
  Rpc.send_transaction (sample_chain (Raise ContractError) 1) (lit "0xc")
    (lit "acceptJob") [JInt 1] 0 = Ok (lit "a120").
Proof. repeat split; vm_compute; reflexivity. Qed.

(** [int(estimated_gas * 1.2)] on some estimates. *)
Lemma gas_with_buffer_samples :
  Rpc.gas_with_buffer 21000 = Ok 25200%Z /\
  Rpc.gas_with_buffer 100000 = Ok 120000%Z /\
  Rpc.gas_with_buffer 123457 = Ok 148148%Z /\
  Rpc.gas_with_buffer 1 = Ok 1%Z /\
  Rpc.gas_with_buffer 0 = Ok 0%Z.
Proof. repeat split; vm_compute; reflexivity. Qed.



(** ** The artifact store *)

Lemma endswith_iff (s p : str) :
  endswith s p = true <-> exists prefix, s = prefix ++ p.
Proof.
  unfold endswith. rewrite andb_true_iff, Nat.leb_le, str_eqb_eq. split.
  - intros [Hlen Hs]. exists (firstn (length s - length p) s).
    pose proof (firstn_skipn (length s - length p) s) as E.
    rewrite Hs in E. now symmetry.
  - intros [prefix ->]. rewrite length_app. split; [lia|].
    replace (length prefix + length p - length p)%nat with (length prefix)
      by lia.
    rewrite skipn_app, skipn_all, Nat.sub_diag. reflexivity.
Qed.

Lemma endswith_same_length (prefix s p : str) :
  length s = length p -> endswith (prefix ++ s) p = str_eqb s p.
Proof.
  intros H. unfold endswith. rewrite length_app, H.
  replace (Nat.leb _ _) with true by (symmetry; apply Nat.leb_le; lia).
  replace (length prefix + length p - length p)%nat with (length prefix)
    by lia.
  now rewrite skipn_app, skipn_all, Nat.sub_diag.
Qed.

(** C10. [verify_cid data expected_cid] is true exactly when
    [expected_cid] ends with the first 32 hexadecimal characters of the
    SHA-256 digest of [data].  Only those last 32 characters count: any
    address with that ending is accepted, and two addresses with the same
    last 32 characters get the same verdict. *)
Theorem verify_cid_suffix (data : bytes) (expected_cid : str) :
  let half := firstn 32 (Sha256.hexdigest (Sha256.sha256 data)) in
  length half = 32 /\
  (Ipfs.verify_cid data expected_cid = true
   <-> exists prefix, expected_cid = prefix ++ half) /\
  (forall prefix, Ipfs.verify_cid data (prefix ++ half) = true) /\
  (forall p1 p2 suffix,
     length suffix = 32 ->
     Ipfs.verify_cid data (p1 ++ suffix) = Ipfs.verify_cid data (p2 ++ suffix)).
Proof.
  intros half.
  assert (Hlen : length half = 32) by reflexivity.
  split; [exact Hlen|]. split; [apply endswith_iff|]. split.
  - intros prefix. apply endswith_iff. now exists prefix.
  - intros p1 p2 suffix Hs. unfold Ipfs.verify_cid. fold half.
    rewrite !endswith_same_length; congruence.
Qed.

(** C8, against the claim as stated: a string with a lone surrogate has
    no UTF-8 form.  With the node out of reach the upload fails, and the
    fallback, which encodes the string again to hash it, raises. *)
Lemma upload_raises_on_lone_surrogate :
  Ipfs.upload_to_ipfs unreachable lone_surrogate api
  = Raise UnicodeEncodeError.
Proof. reflexivity. Qed.

Lemma prefixes_differ (cid digest : str) :
  lit "ipfs://" ++ cid <> lit "0x" ++ digest.
Proof. discriminate. Qed.

(** C8. For every input string that has a UTF-8 encoding,
    [upload_to_ipfs] returns [ipfs://] followed by the CID the node
    assigned when the node answers 200 with a JSON object that has a
    [Hash]; when the node cannot be reached, answers another status, or
    answers without a usable [Hash], it does not raise and returns [0x]
    followed by the lowercase hexadecimal SHA-256 digest of the encoded
    string.  The two forms never coincide. *)
Theorem upload_to_ipfs_result
    (post : str -> bytes -> result Ipfs.post_response)
    (data ipfs_api : str) (payload : bytes) :
  encode_utf8 data = Ok payload ->
  let fallback := lit "0x" ++ Sha256.hexdigest (Sha256.sha256 payload) in
  (forall response fields cid,
     post (ipfs_api ++ lit "/add") payload = Ok response ->
     Ipfs.post_status response = 200%Z ->
     Ipfs.json_body response = Ok fields ->
     Ipfs.lookup fields (lit "Hash") = Ok cid ->
     Ipfs.upload_to_ipfs post data ipfs_api = Ok (lit "ipfs://" ++ cid)) /\
  ((raises (post (ipfs_api ++ lit "/add") payload) \/
    exists response,
      post (ipfs_api ++ lit "/add") payload = Ok response /\
      (Ipfs.post_status response <> 200%Z \/
       raises (Ipfs.json_body response) \/
       exists fields,
         Ipfs.json_body response = Ok fields /\
         raises (Ipfs.lookup fields (lit "Hash")))) ->
   Ipfs.upload_to_ipfs post data ipfs_api = Ok fallback) /\
  returns (Ipfs.upload_to_ipfs post data ipfs_api) /\
  length fallback = 66 /\
  is_lower_hex (skipn 2 fallback) /\
  (forall cid, lit "ipfs://" ++ cid <> fallback).
Proof.
  intros He fallback. unfold Ipfs.upload_to_ipfs. rewrite He. simpl bind.
  split; [|split; [|split; [|split; [|split]]]].
  - intros response fields cid Hp Hs Hj Hl.
    rewrite Hp. simpl. rewrite Hs. simpl. rewrite Hj. simpl.
    now rewrite Hl.
  - intros [[e Hp]|(response & Hp & H)].
    { now rewrite Hp. }
    rewrite Hp. simpl.
    destruct (Z.eqb_spec (Ipfs.post_status response) 200) as [Hs|Hs];
      [|reflexivity].
    simpl. destruct H as [H|[[e Hj]|(fields & Hj & [e Hl])]].
    + contradiction.
    + now rewrite Hj.
    + rewrite Hj. simpl. now rewrite Hl.
  - destruct (post _ payload) as [response|]; simpl; [|now eexists].
    destruct (negb _); simpl; [now eexists|].
    destruct (Ipfs.json_body response) as [fields|]; simpl; [|now eexists].
    destruct (Ipfs.lookup fields _); simpl; now eexists.
  - reflexivity.
  - apply hexdigest_lower_hex.
  - intros cid. apply prefixes_differ.
Qed.

Lemma upload_to_ipfs_result_witness :
  encode_utf8 (lit "abc") = Ok [x61; x62; x63] /\
  Ipfs.upload_to_ipfs accepting (lit "abc") api = Ok (lit "ipfs://QmResult") /\
  Ipfs.upload_to_ipfs unreachable (lit "abc") api
  = Ok (lit "0xba7816bf8f01cfea414140de5dae2223b00361a396177a9cb410ff61f20015ad").
Proof.
  assert (He : encode_utf8 (lit "abc") = Ok [x61; x62; x63]) by reflexivity.
  split; [exact He|]. split.
  - refine (proj1 (upload_to_ipfs_result accepting (lit "abc") api He)
              _ _ (lit "QmResult") eq_refl eq_refl eq_refl eq_refl).
  - assert (Hf : lit "0x" ++ Sha256.hexdigest (Sha256.sha256 [x61; x62; x63])
                 = lit "0xba7816bf8f01cfea414140de5dae2223b00361a396177a9cb410ff61f20015ad")
      by (vm_compute; reflexivity).
    rewrite <- Hf.
    apply (proj1 (proj2 (upload_to_ipfs_result unreachable (lit "abc") api He))).
    left. now exists ConnectionError.
Defined.

(** ** Concurrent downloads *)

Section DownloadFacts.

Variable home : str.
Variable http_get : str -> result Ipfs.get_response.

Lemma step_measure (w : Ipfs.world) (t : Ipfs.task) :
  length (Ipfs.requests (fst (Ipfs.step home http_get w t)))
    + is_ready (snd (Ipfs.step home http_get w t))
  <= length (Ipfs.requests w) + is_ready t.
Proof.
  destruct t as [cid gateway|cache_path url|path|e]; simpl.
  - destruct (Ipfs.exists_file w _); simpl; [lia|].
    rewrite length_app. simpl. lia.
  - destruct (http_get url) as [response|]; simpl; [|lia].
    destruct (negb _); simpl; lia.
  - lia.
  - lia.
Qed.

Lemma count_ready_set_nth (tasks : list Ipfs.task) (i : nat)
    (t t' : Ipfs.task) :
  nth_error tasks i = Some t ->
  count_ready (Ipfs.set_nth i t' tasks) + is_ready t
  = count_ready tasks + is_ready t'.
Proof.
  unfold count_ready. revert i.
  induction tasks as [|x r IH]; intros [|i] H; try discriminate; simpl in *.
  - injection H as ->. lia.
  - specialize (IH i H). lia.
Qed.

Lemma turn_measure (st : Ipfs.world * list Ipfs.task) (i : nat) :
  length (Ipfs.requests (fst (Ipfs.turn home http_get st i)))
    + count_ready (snd (Ipfs.turn home http_get st i))
  <= length (Ipfs.requests (fst st)) + count_ready (snd st).
Proof.
  unfold Ipfs.turn. destruct (nth_error (snd st) i) as [t|] eqn:Hn; [|lia].
  pose proof (step_measure (fst st) t) as Hs.
  destruct (Ipfs.step home http_get (fst st) t) as [w' t']. simpl in *.
  pose proof (@count_ready_set_nth _ i t t' Hn). lia.
Qed.

Lemma run_measure (schedule : list nat) (st : Ipfs.world * list Ipfs.task) :
  length (Ipfs.requests (fst (Ipfs.run home http_get schedule st)))
    + count_ready (snd (Ipfs.run home http_get schedule st))
  <= length (Ipfs.requests (fst st)) + count_ready (snd st).
Proof.
  unfold Ipfs.run. revert st.
  induction schedule as [|i r IH]; intros st; simpl; [lia|].
  etransitivity; [apply IH|apply turn_measure].
Qed.






End DownloadFacts.



(** * Further properties of the code *)

(** ** Dicts *)

Section DictFacts.

Implicit Types (d : list (str * json)) (k : str) (v : json).

Lemma str_eq_dec (a b : str) : {a = b} + {a <> b}.
Proof. apply list_eq_dec, N.eq_dec. Qed.


Lemma dict_has_false d k : dict_has d k = false -> dict_get d k = Raise KeyError.
Proof.
  unfold dict_has. induction d as [|[k' v'] r IH]; simpl; [reflexivity|].
  destruct (str_eqb k' k); simpl; [discriminate|exact IH].
Qed.






Lemma dict_set_fresh d k v : ~ In k (keys d) -> dict_set d k v = d ++ [(k, v)].
Proof.
  unfold keys. induction d as [|[k0 v0] r IH]; simpl; intros H; [reflexivity|].
  destruct (str_eqb k0 k) eqn:E.
  - apply str_eqb_eq in E. tauto.
  - rewrite IH; tauto.
Qed.

End DictFacts.

(** ** The ONNX engine *)

Section OnnxFacts.

Variable input_data : list (str * json).



End OnnxFacts.





Lemma fold_dict_set_combine (names : list str) :
  forall (outputs : list json) (acc : list (str * json)),
    NoDup (keys acc ++ names) ->
    fold_left (fun d nt => dict_set d (fst nt) (snd nt))
              (combine names outputs) acc
    = acc ++ combine names outputs.
Proof.
  induction names as [|n r IH]; intros outputs acc Hnd.
  - simpl. now rewrite app_nil_r.
  - destruct outputs as [|o os]; simpl; [now rewrite app_nil_r|].
    assert (Hn : ~ In n (keys acc)).
    { intros Hin. apply NoDup_remove_2 in Hnd. apply Hnd.
      apply in_or_app. now left. }
    rewrite (@dict_set_fresh acc n o Hn), IH.
    + now rewrite <- app_assoc.
    + unfold keys in *. rewrite map_app, <- app_assoc. exact Hnd.
Qed.

(** X3. When the output names of the model are distinct, the output dict
    of [run_inference] pairs them with the tensors of the session by
    position, in the order of the names, and stops at the shorter of the
    two lists: a name without a tensor is left out without an error. *)
Theorem run_inference_output_pairs (self : ONNXEngine.engine)
    (input_data prepared : list (str * json)) (outputs : list json) :
  ONNXEngine.prepare_input self input_data = Ok prepared ->
  ONNXEngine.session_run self prepared = Ok outputs ->
  NoDup (ONNXEngine.output_names self) ->
  exists h,
    ONNXEngine.run_inference self input_data
    = Ok (combine (ONNXEngine.output_names self) outputs, h) /\
    length (combine (ONNXEngine.output_names self) outputs)
    = Nat.min (length (ONNXEngine.output_names self)) (length outputs).
Proof.
  intros Hp Hs Hnd. unfold ONNXEngine.run_inference.
  rewrite Hp. simpl bind. rewrite Hs. simpl bind.
  rewrite (fold_dict_set_combine _ outputs []) by exact Hnd. simpl app.
  destruct (compute_hash_eq
              (JDict (combine (ONNXEngine.output_names self) outputs)))
    as (text & _ & _ & _ & Hh).
  rewrite Hh. simpl. eexists. split; [reflexivity|apply length_combine].
Qed.

Lemma run_inference_output_pairs_witness :
  exists h,
    ONNXEngine.run_inference (sample_onnx "a.onnx") sample_input
    = Ok (combine [lit "y"] [JList [JList [JFloat f_3_0]]], h).
Proof.
  assert (Hnd : NoDup (ONNXEngine.output_names (sample_onnx "a.onnx")))
    by (repeat constructor; intros []).
  destruct (@run_inference_output_pairs (sample_onnx "a.onnx") sample_input
              sample_input [JList [JList [JFloat f_3_0]]]
              eq_refl eq_refl Hnd) as (h & Hh & _).
  exists h. exact Hh.
Defined.


Lemma prepare_input_loop_ext (d1 d2 : list (str * json)) (names : list str) :
  Forall (fun name => dict_has d1 name = dict_has d2 name /\
                      dict_get d1 name = dict_get d2 name) names ->
  forall acc,
    ONNXEngine.prepare_input_loop names d1 acc
    = ONNXEngine.prepare_input_loop names d2 acc.
Proof.
  induction 1 as [|name rest [Hh Hg] _ IH]; intros acc; [reflexivity|].
  simpl. rewrite Hh, Hg.
  destruct (negb _); [reflexivity|].
  destruct (dict_get d2 name); simpl; [apply IH|reflexivity].
Qed.

(** X5. [run_inference] of the ONNX engine reads the input data at the
    input names of the model only: two input dicts that agree on those
    names give the same result, whatever else they hold. *)
Theorem run_inference_reads_named_inputs (self : ONNXEngine.engine)
    (d1 d2 : list (str * json)) :
  Forall (fun name => dict_has d1 name = dict_has d2 name /\
                      dict_get d1 name = dict_get d2 name)
         (ONNXEngine.input_names self) ->
  ONNXEngine.run_inference self d1 = ONNXEngine.run_inference self d2.
Proof.
  intros H. unfold ONNXEngine.run_inference, ONNXEngine.prepare_input.
  now rewrite (@prepare_input_loop_ext d1 d2 _ H).
Qed.

Lemma run_inference_reads_named_inputs_witness :
  ONNXEngine.run_inference (sample_onnx "a.onnx") sample_input
  = ONNXEngine.run_inference (sample_onnx "a.onnx")
      (sample_input ++ [(lit "unused", JNull)]).
Proof.
  apply run_inference_reads_named_inputs.
  repeat constructor.
Defined.

(** ** The generative engine *)
















Lemma run_batch_hash (e : VLLMEngine.engine) (prompts outs : list str)
    (batch_size max_tokens : Z) (h : str) :
  VLLMEngine.run_batch e prompts batch_size max_tokens = Ok (outs, h) ->
  VLLMEngine.compute_hash (VLLMEngine.batch_results e outs batch_size) = Ok h.
Proof.
  unfold VLLMEngine.run_batch.
  destruct (range _ _ _) as [starts|]; simpl; [|discriminate].
  destruct (VLLMEngine.batch_loop _ _ _ _ _ _) as [all_outputs|]; simpl;
    [|discriminate].
  destruct (VLLMEngine.compute_hash _) as [h'|] eqn:Hh; simpl;
    [|discriminate].
  intros [= <- <-]. exact Hh.
Qed.

(** X10. The hash that [run_batch] returns does not take in [max_tokens]:
    two batched runs over the same prompts with the same batch size and
    the same outputs return the same hash, whatever [max_tokens] each was
    given. *)
Theorem run_batch_hash_ignores_max_tokens (e : VLLMEngine.engine)
    (prompts outs : list str) (batch_size mt1 mt2 : Z) (h1 h2 : str) :
  VLLMEngine.run_batch e prompts batch_size mt1 = Ok (outs, h1) ->
  VLLMEngine.run_batch e prompts batch_size mt2 = Ok (outs, h2) ->
  h1 = h2.
Proof.
  intros H1 H2. apply run_batch_hash in H1, H2. congruence.
Qed.

Lemma run_batch_hash_ignores_max_tokens_witness :
  let h := lit "0x40b2d67ac645444e1cd7904955d799cf826e81c9515e735f1c0e747ab053e18a" in
  VLLMEngine.run_batch echo_engine abc 2 100 = Ok (abc, h) /\
  VLLMEngine.run_batch echo_engine abc 2 200 = Ok (abc, h) /\
  h = h.
Proof.
  intros h.
  assert (H1 : VLLMEngine.run_batch echo_engine abc 2 100 = Ok (abc, h))
    by (vm_compute; reflexivity).
  assert (H2 : VLLMEngine.run_batch echo_engine abc 2 200 = Ok (abc, h))
    by (vm_compute; reflexivity).
  split; [exact H1|]. split; [exact H2|].
  exact (@run_batch_hash_ignores_max_tokens echo_engine abc abc 2 100 200
           h h H1 H2).
Defined.

Lemma batch_text_batch_size (e : VLLMEngine.engine) (outs : list str)
    (b1 b2 : Z) :
  canon_text (VLLMEngine.batch_results e outs b1)
  = canon_text (VLLMEngine.batch_results e outs b2) ->
  b1 = b2.
Proof.
  intros H. unfold VLLMEngine.batch_results in H.
  rewrite !canon_text_dict in H. cbn [map fst snd] in H.
  change (canon_text (JInt b1)) with (int_repr b1) in H.
  change (canon_text (JInt b2)) with (int_repr b2) in H.
  remember (canon_text (JList (map JStr outs))) as a.
  remember (canon_text (JStr (VLLMEngine.model_name e))) as c.
  remember (int_repr b1) as i1. remember (int_repr b2) as i2.
  cbn in H.
  repeat first [ apply app_inv_head in H
               | injection H as H
               | rewrite <- app_assoc in H; cbn in H ].
  subst i1 i2. eapply int_repr_delimited. exact H.
Qed.

(** X11. The hash that [run_batch] returns takes in the batch size: two
    batched runs with the same outputs and different batch sizes hash
    different canonical texts. *)
Theorem run_batch_hash_depends_on_batch_size (e : VLLMEngine.engine)
    (prompts outs : list str) (b1 b2 max_tokens : Z) (h1 h2 : str) :
  VLLMEngine.run_batch e prompts b1 max_tokens = Ok (outs, h1) ->
  VLLMEngine.run_batch e prompts b2 max_tokens = Ok (outs, h2) ->
  b1 <> b2 ->
  VLLMEngine.compute_hash (VLLMEngine.batch_results e outs b1) = Ok h1 /\
  VLLMEngine.compute_hash (VLLMEngine.batch_results e outs b2) = Ok h2 /\
  canonical (VLLMEngine.batch_results e outs b1)
  <> canonical (VLLMEngine.batch_results e outs b2).
Proof.
  intros H1 H2 Hne. apply run_batch_hash in H1, H2.
  repeat split; auto.
  rewrite !canonical_canon_text. intros [= H].
  apply Hne. eapply batch_text_batch_size. exact H.
Qed.

Lemma run_batch_hash_depends_on_batch_size_witness :
  let h := lit "0x40b2d67ac645444e1cd7904955d799cf826e81c9515e735f1c0e747ab053e18a" in
  exists h3,
    VLLMEngine.run_batch echo_engine abc 2 100 = Ok (abc, h) /\
    VLLMEngine.run_batch echo_engine abc 3 100 = Ok (abc, h3) /\
    canonical (VLLMEngine.batch_results echo_engine abc 2)
    <> canonical (VLLMEngine.batch_results echo_engine abc 3).
Proof.
  intros h.
  assert (H1 : VLLMEngine.run_batch echo_engine abc 2 100 = Ok (abc, h))
    by (vm_compute; reflexivity).
  destruct (VLLMEngine.run_batch echo_engine abc 3 100) as [[o h3]|] eqn:H2;
    [|vm_compute in H2; discriminate].
  assert (o = abc) as -> by (vm_compute in H2; now injection H2 as <- _).
  exists h3. split; [exact H1|]. split; [reflexivity|].
  assert (Hne : (2 <> 3)%Z) by discriminate.
  exact (proj2 (proj2
    (@run_batch_hash_depends_on_batch_size echo_engine abc abc 2 3 100 h h3
       H1 H2 Hne))).
Defined.

(** ** The artifact cache, one call at a time *)

Section CacheFacts.

Variable home : str.
Variable http_get : str -> result Ipfs.get_response.

Lemma read_file_filter_other (files : list (str * bytes)) (path p : str) :
  p <> path ->
  read_file (filter (fun f => negb (str_eqb (fst f) path)) files) p
  = read_file files p.
Proof.
  intros Hne. induction files as [|[q c] r IH]; simpl; [reflexivity|].
  destruct (str_eqb q path) eqn:E; simpl.
  - apply str_eqb_eq in E. subst q.
    destruct (str_eqb path p) eqn:E'; [|exact IH].
    apply str_eqb_eq in E'. congruence.
  - now rewrite IH.
Qed.

Lemma read_file_written (w : Ipfs.world) (path : str) (content : bytes) :
  read_file (Ipfs.files (Ipfs.write_file w path content)) path = Some content.
Proof. simpl. now rewrite str_eqb_refl. Qed.

Lemma read_file_written_other (w : Ipfs.world) (path p : str)
    (content : bytes) :
  p <> path ->
  read_file (Ipfs.files (Ipfs.write_file w path content)) p
  = read_file (Ipfs.files w) p.
Proof.
  intros Hne. simpl.
  destruct (str_eqb path p) eqn:E.
  - apply str_eqb_eq in E. congruence.
  - now apply read_file_filter_other.
Qed.

Lemma exists_file_read (w : Ipfs.world) (p : str) :
  Ipfs.exists_file w p = true <-> read_file (Ipfs.files w) p <> None.
Proof.
  unfold Ipfs.exists_file. induction (Ipfs.files w) as [|[q c] r IH]; simpl.
  - split; [discriminate|congruence].
  - destruct (str_eqb q p); simpl; [|exact IH].
    split; [discriminate|reflexivity].
Qed.

Lemma step_keeps_files (w : Ipfs.world) (t : Ipfs.task) (p : str) :
  Ipfs.exists_file w p = true ->
  Ipfs.exists_file (fst (Ipfs.step home http_get w t)) p = true.
Proof.
  intros H. destruct t as [cid gateway|cache_path url|path|e]; simpl; auto.
  - destruct (Ipfs.exists_file w (Ipfs.path_join _ _)); simpl; exact H.
  - destruct (http_get url) as [response|]; simpl; [|exact H].
    destruct (negb _); simpl; [exact H|].
    apply exists_file_read. apply exists_file_read in H.
    destruct (str_eq_dec p cache_path) as [->|Hne].
    + rewrite read_file_written. discriminate.
    + now rewrite read_file_written_other.
Qed.

Lemma run_keeps_files (schedule : list nat)
    (st : Ipfs.world * list Ipfs.task) (p : str) :
  Ipfs.exists_file (fst st) p = true ->
  Ipfs.exists_file (fst (Ipfs.run home http_get schedule st)) p = true.
Proof.
  unfold Ipfs.run. revert st.
  induction schedule as [|i r IH]; intros st H; simpl; [exact H|].
  apply IH. unfold Ipfs.turn.
  destruct (nth_error (snd st) i) as [t|]; [|exact H].
  pose proof (step_keeps_files (fst st) t p H) as Hs.
  destruct (Ipfs.step home http_get (fst st) t) as [w' t']. exact Hs.
Qed.

End CacheFacts.

(** X12. A call of [download_from_ipfs] that finds a file at the cache
    path returns that path at once: it sends no request, changes nothing,
    and does not compare the file with the address, whatever the file
    holds and whatever the gateway would answer. *)
Theorem download_cache_hit (home : str)
    (http_get : str -> result Ipfs.get_response) (w : Ipfs.world)
    (cid gateway : str) :
  Ipfs.exists_file w (Ipfs.cache_path_of home cid) = true ->
  Ipfs.download_from_ipfs home http_get w cid gateway
  = (w, Ipfs.Returned (Ipfs.cache_path_of home cid)).
Proof.
  intros H. unfold Ipfs.download_from_ipfs. simpl.
  fold (Ipfs.cache_path_of home cid). now rewrite H.
Qed.

Lemma download_cache_hit_witness :
  let w := {| Ipfs.files :=
                [(lit "/home/miner/.tensora/ipfs_cache/Qmfoo", [x00])];
              Ipfs.requests := [] |} in
  Ipfs.exists_file w (Ipfs.cache_path_of (lit "/home/miner")
                                         (lit "ipfs://Qmfoo")) = true /\
  Ipfs.download_from_ipfs (lit "/home/miner") sample_gateway w
    (lit "ipfs://Qmfoo") gateway_url
  = (w, Ipfs.Returned (lit "/home/miner/.tensora/ipfs_cache/Qmfoo")).
Proof.
  intros w.
  assert (H : Ipfs.exists_file w (Ipfs.cache_path_of (lit "/home/miner")
                                    (lit "ipfs://Qmfoo")) = true)
    by reflexivity.
  split; [exact H|].
  exact (download_cache_hit (lit "/home/miner") sample_gateway w
           (lit "ipfs://Qmfoo") gateway_url H).
Defined.

(** X13. A call of [download_from_ipfs] that misses the cache sends one
    request, for the gateway address followed by the bare CID.  When the
    request raises, the call raises the same exception; when the status is
    not 200, it raises; in both cases no file of the cache is created or
    changed. *)
Theorem download_failure (home : str)
    (http_get : str -> result Ipfs.get_response) (w : Ipfs.world)
    (cid gateway : str) :
  Ipfs.exists_file w (Ipfs.cache_path_of home cid) = false ->
  let url := gateway ++ Ipfs.strip_scheme cid in
  let r := Ipfs.download_from_ipfs home http_get w cid gateway in
  Ipfs.requests (fst r) = Ipfs.requests w ++ [url] /\
  (forall e, http_get url = Raise e ->
             snd r = Ipfs.Raised e /\ Ipfs.files (fst r) = Ipfs.files w) /\
  (forall response,
     http_get url = Ok response -> Ipfs.get_status response <> 200%Z ->
     snd r = Ipfs.Raised GenericException /\
     Ipfs.files (fst r) = Ipfs.files w).
Proof.
  intros H url r. subst r. unfold Ipfs.download_from_ipfs. simpl.
  fold (Ipfs.cache_path_of home cid). rewrite H. simpl. fold url.
  split; [|split].
  - destruct (http_get url) as [response|]; simpl; [|reflexivity].
    destruct (negb _); reflexivity.
  - intros e He. rewrite He. simpl. split; reflexivity.
  - intros response Hr Hs. rewrite Hr.
    destruct (Z.eqb_spec (Ipfs.get_status response) 200); [contradiction|].
    simpl. split; reflexivity.
Qed.

Lemma download_failure_witness :
  Ipfs.exists_file empty_world
    (Ipfs.cache_path_of (lit "/home/miner") (lit "Qmfoo")) = false /\
  Ipfs.download_from_ipfs (lit "/home/miner")
    (fun _ => Raise ConnectionError) empty_world (lit "Qmfoo") gateway_url
  = ({| Ipfs.files := [];
        Ipfs.requests := [lit "https://ipfs.io/ipfs/Qmfoo"] |},
     Ipfs.Raised ConnectionError).
Proof.
  assert (H : Ipfs.exists_file empty_world
                (Ipfs.cache_path_of (lit "/home/miner") (lit "Qmfoo")) = false)
    by reflexivity.
  split; [exact H|].
  pose proof (download_failure (lit "/home/miner")
                (fun _ => Raise ConnectionError) empty_world (lit "Qmfoo")
                gateway_url H) as (Hreq & Hraise & _).
  destruct (Hraise ConnectionError eq_refl) as [Ht Hf].
  destruct (Ipfs.download_from_ipfs _ _ _ _ _) as [[f q] t].
  simpl in *. now subst.
Defined.



Lemma strip_scheme_prefixed (cid : str) :
  Ipfs.strip_scheme (lit "ipfs://" ++ cid) = cid.
Proof. unfold Ipfs.strip_scheme. simpl. now destruct cid. Qed.

Lemma strip_scheme_bare (cid : str) :
  startswith cid (lit "ipfs://") = false -> Ipfs.strip_scheme cid = cid.
Proof. intros H. unfold Ipfs.strip_scheme. now rewrite H. Qed.

(** X15. For a CID that does not itself start with [ipfs://],
    [download_from_ipfs] treats [ipfs://CID] and [CID] alike: the same
    request, the same cache path, the same outcome. *)
Theorem download_scheme_prefix (home : str)
    (http_get : str -> result Ipfs.get_response) (w : Ipfs.world)
    (cid gateway : str) :
  startswith cid (lit "ipfs://") = false ->
  Ipfs.download_from_ipfs home http_get w (lit "ipfs://" ++ cid) gateway
  = Ipfs.download_from_ipfs home http_get w cid gateway.
Proof.
  intros H. unfold Ipfs.download_from_ipfs, Ipfs.step.
  now rewrite strip_scheme_prefixed, (strip_scheme_bare _ H).
Qed.

Lemma download_scheme_prefix_witness :
  startswith (lit "Qmfoo") (lit "ipfs://") = false /\
  Ipfs.download_from_ipfs (lit "/home/miner") sample_gateway empty_world
    (lit "ipfs://" ++ lit "Qmfoo") gateway_url
  = Ipfs.download_from_ipfs (lit "/home/miner") sample_gateway empty_world
      (lit "Qmfoo") gateway_url.
Proof.
  assert (H : startswith (lit "Qmfoo") (lit "ipfs://") = false) by reflexivity.
  split; [exact H|].
  exact (download_scheme_prefix (lit "/home/miner") sample_gateway empty_world
           (lit "Qmfoo") gateway_url H).
Defined.

Lemma count_ready_calls (calls : list (str * str)) :
  count_ready (map (fun c => Ipfs.Ready (fst c) (snd c)) calls)
  = length calls.
Proof.
  unfold count_ready. induction calls as [|c r IH]; simpl; [reflexivity|].
  now rewrite IH.
Qed.

(** X16. Whatever the number of concurrent calls of [download_from_ipfs],
    the addresses they ask for and the order in which the event loop runs
    them, each call sends at most one request (none is retried), and a
    file that is in the cache stays in the cache. *)
Theorem downloads_any_schedule (home : str)
    (http_get : str -> result Ipfs.get_response) (w : Ipfs.world)
    (calls : list (str * str)) (schedule : list nat) :
  let st := Ipfs.run home http_get schedule
              (w, map (fun c => Ipfs.Ready (fst c) (snd c)) calls) in
  length (Ipfs.requests (fst st)) <= length (Ipfs.requests w) + length calls /\
  (forall p, Ipfs.exists_file w p = true ->
             Ipfs.exists_file (fst st) p = true) /\
  length (snd st) = length calls.
Proof.
  intros st. split; [|split].
  - pose proof (run_measure home http_get schedule
                  (w, map (fun c => Ipfs.Ready (fst c) (snd c)) calls)) as H.
    cbn [fst snd] in H. rewrite count_ready_calls in H. subst st. lia.
  - intros p Hp. subst st.
    now apply (@run_keeps_files home http_get schedule
                 (w, map (fun c => Ipfs.Ready (fst c) (snd c)) calls) p).
  - subst st. unfold Ipfs.run.
    assert (Hlen : forall s (x : Ipfs.world * list Ipfs.task),
               length (snd (fold_left (Ipfs.turn home http_get) s x))
               = length (snd x)).
    { induction s as [|i r IH]; intros x; simpl; [reflexivity|].
      rewrite IH. unfold Ipfs.turn.
      destruct (nth_error (snd x) i) as [t|]; [|reflexivity].
      destruct (Ipfs.step home http_get (fst x) t) as [w' t']. simpl.
      clear. revert i. induction (snd x) as [|y l IHl]; intros [|i]; simpl;
        auto. }
    rewrite Hlen. simpl. apply length_map.
Qed.

(** ** Pinning *)

(** X17. [pin_to_ipfs] never raises, whatever the node does: it logs
    [Pinned] exactly when the node answers 200, and a warning otherwise.
    The request names the bare CID, so for a CID that does not itself start
    with [ipfs://] the calls on [ipfs://CID] and on [CID] are the same. *)
Theorem pin_to_ipfs_outcome (post : str -> result Z) (cid ipfs_api : str) :
  let bare := Ipfs.strip_scheme cid in
  let url := ipfs_api ++ lit "/pin/add?arg=" ++ bare in
  returns (Ipfs.pin_to_ipfs post cid ipfs_api) /\
  (Ipfs.pin_to_ipfs post cid ipfs_api = Ok (Ipfs.Pinned bare)
   <-> post url = Ok 200%Z) /\
  (forall status, post url = Ok status -> status <> 200%Z ->
     Ipfs.pin_to_ipfs post cid ipfs_api = Ok (Ipfs.PinFailed status)) /\
  (forall e, post url = Raise e ->
     Ipfs.pin_to_ipfs post cid ipfs_api = Ok (Ipfs.FailedToPin bare e)) /\
  (startswith cid (lit "ipfs://") = false ->
   Ipfs.pin_to_ipfs post (lit "ipfs://" ++ cid) ipfs_api
   = Ipfs.pin_to_ipfs post cid ipfs_api).
Proof.
  intros bare url.
  assert (Heq : forall c,
            Ipfs.pin_to_ipfs post c ipfs_api
            = try_except
                (bind (post (ipfs_api ++ lit "/pin/add?arg="
                               ++ Ipfs.strip_scheme c))
                      (fun status =>
                         if (status =? 200)%Z
                         then Ok (Ipfs.Pinned (Ipfs.strip_scheme c))
                         else Ok (Ipfs.PinFailed status)))
                (fun e => Ok (Ipfs.FailedToPin (Ipfs.strip_scheme c) e)))
    by reflexivity.
  rewrite !Heq. fold bare. fold url.
  split; [|split; [|split; [|split]]].
  - destruct (post url) as [status|e]; simpl.
    + destruct (status =? 200)%Z; eexists; reflexivity.
    + eexists; reflexivity.
  - destruct (post url) as [status|e]; simpl.
    + destruct (Z.eqb_spec status 200) as [->|Hne].
      * split; reflexivity.
      * split; [discriminate|]. intros [= H]. contradiction.
    + split; discriminate.
  - intros status Hp Hne. rewrite Hp. simpl.
    destruct (Z.eqb_spec status 200); [contradiction|reflexivity].
  - intros e Hp. now rewrite Hp.
  - intros H. rewrite strip_scheme_prefixed. subst url bare.
    now rewrite (strip_scheme_bare _ H).
Qed.

(** ** Addresses *)

(** X18. [verify_cid] does not accept the fallback address that
    [upload_to_ipfs] returns for the same data when the node cannot be
    reached, except for data whose digest has two equal halves: the
    fallback ends with the second half of the hexadecimal digest,
    [verify_cid] looks for the first. *)
Theorem verify_cid_on_fallback
    (post : str -> bytes -> result Ipfs.post_response)
    (data ipfs_api : str) (payload : bytes) :
  encode_utf8 data = Ok payload ->
  raises (post (ipfs_api ++ lit "/add") payload) ->
  let hex := Sha256.hexdigest (Sha256.sha256 payload) in
  Ipfs.upload_to_ipfs post data ipfs_api = Ok (lit "0x" ++ hex) /\
  (Ipfs.verify_cid payload (lit "0x" ++ hex) = true
   <-> skipn 32 hex = firstn 32 hex).
Proof.
  intros He [e Hp] hex. split.
  - unfold Ipfs.upload_to_ipfs. rewrite He. simpl bind. now rewrite Hp.
  - unfold Ipfs.verify_cid. fold hex.
    rewrite <- (firstn_skipn 32 hex) at 1.
    rewrite app_assoc, endswith_same_length by reflexivity.
    apply str_eqb_eq.
Qed.

Lemma verify_cid_on_fallback_witness :
  let hex := Sha256.hexdigest (Sha256.sha256 [x61; x62; x63]) in
  encode_utf8 (lit "abc") = Ok [x61; x62; x63] /\
  Ipfs.upload_to_ipfs unreachable (lit "abc") api = Ok (lit "0x" ++ hex) /\
  Ipfs.verify_cid [x61; x62; x63] (lit "0x" ++ hex) = false.
Proof.
  intros hex.
  assert (He : encode_utf8 (lit "abc") = Ok [x61; x62; x63]) by reflexivity.
  assert (Hr : raises (unreachable (api ++ lit "/add") [x61; x62; x63]))
    by (now exists ConnectionError).
  destruct (verify_cid_on_fallback unreachable (lit "abc") api He Hr)
    as [Hu Hv].
  split; [exact He|]. split; [exact Hu|].
  fold hex in Hv. destruct (Ipfs.verify_cid _ _); [|reflexivity].
  assert (Hne : skipn 32 hex <> firstn 32 hex)
    by (vm_compute; discriminate).
  exfalso. apply Hne. now apply Hv.
Defined.

(** X19. [verify_cid] rejects every address shorter than 32 characters,
    the empty one included, whatever the data. *)
Theorem verify_cid_short_address (data : bytes) (expected_cid : str) :
  length expected_cid < 32 ->
  Ipfs.verify_cid data expected_cid = false.
Proof.
  intros H. unfold Ipfs.verify_cid, endswith.
  replace (length (firstn 32 (Sha256.hexdigest (Sha256.sha256 data))))
    with 32 by reflexivity.
  replace (Nat.leb 32 (length expected_cid)) with false; [reflexivity|].
  symmetry. apply Nat.leb_gt. exact H.
Qed.

Lemma verify_cid_short_address_witness :
  length (lit "Qmfoo") < 32 /\ Ipfs.verify_cid [] (lit "Qmfoo") = false.
Proof.
  assert (H : length (lit "Qmfoo") < 32) by (simpl; lia).
  split; [exact H|].
  exact (verify_cid_short_address [] (lit "Qmfoo") H).
Defined.

(** ** Signing and sending *)

Section RpcFacts.

Variable c : Rpc.chain.
Variables address name : str.
Variable args : list json.
Variable value : Z.

Lemma build_inv (t : Rpc.tx) :
  Rpc.build c address name args value = Ok t ->
  exists a f,
    Rpc.to_checksum_address c address = Ok a /\
    Rpc.bind_function c a name args = Ok f /\
    Rpc.get_transaction_count c (Rpc.wallet_address c) = Ok (Rpc.tx_nonce t) /\
    Rpc.gas_price c = Ok (Rpc.tx_gasPrice t) /\
    Rpc.fn_data f = Ok (Rpc.tx_data t) /\
    Rpc.tx_to t = Rpc.fn_address f /\
    Rpc.tx_from t = Rpc.wallet_address c /\
    Rpc.tx_value t = value.
Proof.
  unfold Rpc.build. intros Hb.
  destruct (Rpc.to_checksum_address c address) as [a|]; simpl in Hb;
    [|discriminate].
  destruct (Rpc.bind_function c a name args) as [f|] eqn:Hf; simpl in Hb;
    [|discriminate].
  destruct (Rpc.get_transaction_count c _) as [n|]; simpl in Hb;
    [|discriminate].
  destruct (Rpc.gas_price c) as [p|]; simpl in Hb; [|discriminate].
  unfold Rpc.build_transaction in Hb.
  destruct (Rpc.fn_data f) as [d|] eqn:Hd; simpl in Hb; [|discriminate].
  injection Hb as <-. exists a, f. simpl. now rewrite Hd.
Qed.

Lemma estimate_keeps (t : Rpc.tx) :
  Rpc.set_gas (Rpc.estimate c t) (Rpc.tx_gas t) = t.
Proof.
  unfold Rpc.estimate.
  destruct (bind (Rpc.estimate_gas c t) Rpc.gas_with_buffer);
    now destruct t.
Qed.

End RpcFacts.

(** X20. When [send_transaction] raises, the exception is the one of the
    first step that failed, passed on unchanged by the [except] clause:
    building the transaction (address, binding, nonce, gas price,
    encoding), signing, broadcasting or waiting for the receipt.  The one
    exception of its own is the generic one for a receipt whose status is
    not 1.  Gas estimation is never the step that failed. *)
Theorem send_transaction_reraises (c : Rpc.chain) (address name : str)
    (args : list json) (value : Z) (e : exn) :
  Rpc.send_transaction c address name args value = Raise e <->
  Rpc.build c address name args value = Raise e \/
  exists t,
    Rpc.build c address name args value = Ok t /\
    (Rpc.sign_transaction c (Rpc.estimate c t) = Raise e \/
     exists raw,
       Rpc.sign_transaction c (Rpc.estimate c t) = Ok raw /\
       (Rpc.send_raw_transaction c raw = Raise e \/
        exists tx_hash,
          Rpc.send_raw_transaction c raw = Ok tx_hash /\
          (Rpc.wait_for_transaction_receipt c tx_hash 120 = Raise e \/
           exists r,
             Rpc.wait_for_transaction_receipt c tx_hash 120 = Ok r /\
             Rpc.receipt_status r <> 1%Z /\
             e = GenericException))).
Proof.
  rewrite send_transaction_eq.
  destruct (Rpc.build c address name args value) as [t|e0]; simpl.
  2:{ split.
      - intros [= ->]. now left.
      - intros [[= ->]|(t & Hb & _)]; [reflexivity|discriminate]. }
  unfold Rpc.sign_and_send. split.
  - intros H. right. exists t. split; [reflexivity|].
    destruct (Rpc.sign_transaction c _) as [raw|e1]; simpl in H.
    2:{ injection H as ->. now left. }
    right. exists raw. split; [reflexivity|].
    destruct (Rpc.send_raw_transaction c raw) as [tx_hash|e1]; simpl in H.
    2:{ injection H as ->. now left. }
    right. exists tx_hash. split; [reflexivity|].
    destruct (Rpc.wait_for_transaction_receipt c tx_hash 120) as [r|e1];
      simpl in H.
    2:{ injection H as ->. now left. }
    right. exists r. split; [reflexivity|].
    destruct (Z.eqb_spec (Rpc.receipt_status r) 1); [discriminate|].
    injection H as <-. now split.
  - intros [H|(t' & [= <-] & H)]; [discriminate|].
    destruct H as [->|(raw & -> & H)]; [reflexivity|]. simpl.
    destruct H as [->|(tx_hash & -> & H)]; [reflexivity|]. simpl.
    destruct H as [->|(r & -> & Hst & ->)]; [reflexivity|]. simpl.
    now destruct (Z.eqb_spec (Rpc.receipt_status r) 1).
Qed.

(** X21. The transaction that [send_transaction] signs is sent from the
    wallet address to the checksummed contract address, with the nonce and
    the gas price the node gave and the value of the call; gas estimation
    changes no field of it but the gas limit. *)
Theorem signed_transaction_fields (c : Rpc.chain) (address name : str)
    (args : list json) (value : Z) (t : Rpc.tx) :
  Rpc.build c address name args value = Ok t ->
  let signed := Rpc.estimate c t in
  Rpc.send_transaction c address name args value
  = Rpc.sign_and_send c signed /\
  Rpc.tx_from signed = Rpc.wallet_address c /\
  Rpc.tx_value signed = value /\
  Rpc.get_transaction_count c (Rpc.wallet_address c)
  = Ok (Rpc.tx_nonce signed) /\
  Rpc.gas_price c = Ok (Rpc.tx_gasPrice signed) /\
  (exists a f,
     Rpc.to_checksum_address c address = Ok a /\
     Rpc.bind_function c a name args = Ok f /\
     Rpc.tx_to signed = Rpc.fn_address f /\
     Rpc.fn_data f = Ok (Rpc.tx_data signed)) /\
  Rpc.set_gas signed (Rpc.tx_gas t) = t.
Proof.
  intros Hb signed.
  destruct (@build_inv c address name args value t Hb) as (a & f & Ha & Hf & Hn & Hp & Hd & Hto & Hfrom & Hv).
  pose proof (estimate_keeps c t) as Hk. fold signed in Hk.
  assert (Hfields : Rpc.tx_from signed = Rpc.tx_from t /\
                    Rpc.tx_value signed = Rpc.tx_value t /\
                    Rpc.tx_nonce signed = Rpc.tx_nonce t /\
                    Rpc.tx_gasPrice signed = Rpc.tx_gasPrice t /\
                    Rpc.tx_to signed = Rpc.tx_to t /\
                    Rpc.tx_data signed = Rpc.tx_data t).
  { subst signed. unfold Rpc.estimate.
    destruct (bind (Rpc.estimate_gas c t) Rpc.gas_with_buffer);
      now repeat split. }
  destruct Hfields as (E1 & E2 & E3 & E4 & E5 & E6).
  rewrite send_transaction_eq, Hb, E1, E2, E3, E4, E5, E6.
  repeat split; try assumption.
  exists a, f. now repeat split.
Qed.

Lemma signed_transaction_fields_witness :
  let c := sample_chain (Ok 21000%Z) 1 in
  let t := {| Rpc.tx_from := lit "0xabc"; Rpc.tx_nonce := 7;
              Rpc.tx_value := 0; Rpc.tx_gas := 500000;
              Rpc.tx_gasPrice := 1000000000; Rpc.tx_to := lit "0xc";
              Rpc.tx_data := [] |} in
  Rpc.build c (lit "0xc") (lit "acceptJob") [JInt 1] 0 = Ok t /\
  Rpc.tx_from (Rpc.estimate c t) = Rpc.wallet_address c /\
  Rpc.set_gas (Rpc.estimate c t) (Rpc.tx_gas t) = t.
Proof.
  intros c t.
  assert (Hb : Rpc.build c (lit "0xc") (lit "acceptJob") [JInt 1] 0 = Ok t)
    by reflexivity.
  split; [exact Hb|].
  pose proof (signed_transaction_fields c (lit "0xc") (lit "acceptJob")
                [JInt 1] 0 Hb) as H.
  split; [exact (proj1 (proj2 H))|].
  exact (proj2 (proj2 (proj2 (proj2 (proj2 (proj2 H)))))).
Defined.

(** ** Signed messages *)



(** On the sample wallet, whose signature is the digest itself, the
    signature of [abc] is the SHA-256 of [abc]; a lone surrogate cannot be
    signed. *)
Lemma sign_message_samples :
  Rpc.sign_message sample_wallet (lit "abc")
  = Ok (lit "ba7816bf8f01cfea414140de5dae2223b00361a396177a9cb410ff61f20015ad") /\
  Rpc.sign_message sample_wallet lone_surrogate = Raise UnicodeEncodeError.
Proof. split; vm_compute; reflexivity. Qed.
